(** * Ytranscriptor: a shallow embedding of [main.py]

    The program lists the videos of a YouTube channel, and for each of
    them (in catalog order, numbered from 1) fetches its details, checks
    for a manually written caption track, downloads the audio with
    yt-dlp, transcribes it through Groq's speech-to-text endpoint, asks a
    chat model to turn the transcription into markdown, and writes
    [transcriptions/<index>.md].

    The embedding keeps the shape of the Python code: every function of
    [main.py] is a definition of the same name, written in a small
    state-and-exception monad.  The state is the file system (a finite
    map from paths to contents) together with the trace of everything the
    program did to the outside world (API calls, downloads, prints).  The
    remote services are a record of response functions, so that a run is
    a computation that can be evaluated on a concrete world. *)

From Stdlib Require Import Ascii String DecimalString DecimalNat.
From stdpp Require Import gmap strings list fin_maps.

Local Open Scope string_scope.
Local Open Scope list_scope.
Local Open Scope nat_scope.

(** ** Strings as Python uses them *)

Module PyStr.

(** [f"{n}"] for a non-negative [int]: its decimal numeral. *)
Definition fmt_int (n : nat) : string :=
  NilEmpty.string_of_uint (Nat.to_uint n).

(** [c in s]. *)
Fixpoint contains (c : ascii) (s : string) : bool :=
  match s with
  | EmptyString => false
  | String a s' => if decide (a = c) then true else contains c s'
  end.

(** [s.split(c)]: never the empty list. *)
Fixpoint split_on (c : ascii) (s : string) : list string :=
  match s with
  | EmptyString => [EmptyString]
  | String a s' =>
      if decide (a = c) then EmptyString :: split_on c s'
      else match split_on c s' with
           | h :: t => String a h :: t
           | [] => [String a EmptyString]
           end
  end.

(** [s.rfind(c)], with [None] for Python's [-1]. *)
Fixpoint rfind (c : ascii) (s : string) : option nat :=
  match s with
  | EmptyString => None
  | String a s' =>
      match rfind c s' with
      | Some i => Some (S i)
      | None => if decide (a = c) then Some 0 else None
      end
  end.

(** [s[i:]]. *)
Fixpoint drop_str (i : nat) (s : string) : string :=
  match i, s with
  | 0, _ => s
  | S i', String _ s' => drop_str i' s'
  | S _, EmptyString => EmptyString
  end.

(** [s.startswith(c)] and [s.endswith(c)] for a one-character [c]. *)
Definition starts_with (c : ascii) (s : string) : bool :=
  match s with
  | String a _ => bool_decide (a = c)
  | EmptyString => false
  end.

Fixpoint ends_with (c : ascii) (s : string) : bool :=
  match s with
  | EmptyString => false
  | String a EmptyString => bool_decide (a = c)
  | String _ s' => ends_with c s'
  end.

(** [str.lower] on the ASCII range: [A]..[Z] move down by 32, every
    other byte is kept. *)
Definition lower_ascii (a : ascii) : ascii :=
  let n := nat_of_ascii a in
  if ((65 <=? n)%nat && (n <=? 90)%nat)%bool then ascii_of_nat (n + 32) else a.

Fixpoint lower (s : string) : string :=
  match s with
  | EmptyString => EmptyString
  | String a s' => String (lower_ascii a) (lower s')
  end.

(** [repr(s)] for a [str]: single quotes, or double quotes when the
    string holds a single quote and no double quote; the quote in use and
    the backslash are escaped, tab, newline and carriage return are
    written [\t], [\n], [\r], the other control characters [\xNN].
    Bytes from 128 on stand for printable text and are kept. *)
Definition hex_digit (n : nat) : ascii :=
  match String.get n "0123456789abcdef" with
  | Some a => a
  | None => "0"%char
  end.

Definition repr_char (quote a : ascii) : string :=
  let n := nat_of_ascii a in
  if bool_decide (a = quote) || bool_decide (a = "\"%char)
  then String "\" (String a EmptyString)
  else if bool_decide (n = 9) then "\t"
  else if bool_decide (n = 10) then "\n"
  else if bool_decide (n = 13) then "\r"
  else if (n <? 32)%nat || bool_decide (n = 127)
  then String "\" (String "x" (String (hex_digit (n / 16))
                                  (String (hex_digit (n mod 16)) EmptyString)))
  else String a EmptyString.

Fixpoint repr_chars (quote : ascii) (s : string) : string :=
  match s with
  | EmptyString => EmptyString
  | String a s' => repr_char quote a +:+ repr_chars quote s'
  end.

Definition py_repr (s : string) : string :=
  let quote :=
    if contains "'" s && negb (contains "034" s) then "034"%char
    else "'"%char in
  String quote (repr_chars quote s +:+ String quote EmptyString).

(** [s.isdigit()] on ASCII, character by character. *)
Definition is_digit (a : ascii) : bool :=
  bool_decide (a ∈ ["0"; "1"; "2"; "3"; "4"; "5"; "6"; "7"; "8"; "9"]%char).

Fixpoint all_digits (s : string) : bool :=
  match s with
  | EmptyString => true
  | String a s' => is_digit a && all_digits s'
  end.

End PyStr.

(** ** [os.path] and [pathlib] on POSIX paths *)

Module PyPath.
Import PyStr.

(** [os.path.join(a, b)] of [posixpath]: an absolute [b] replaces [a];
    otherwise the two are glued with one separator, unless [a] is empty
    or already ends with one. *)
Definition os_path_join (a b : string) : string :=
  if starts_with "/" b then b
  else if bool_decide (a = "") || ends_with "/" a then a +:+ b
  else a +:+ "/" +:+ b.

(** The components of [Path(p)]: empty and ["."] segments are dropped
    when the path is parsed. *)
Definition path_parts (p : string) : list string :=
  filter (λ c, c ≠ "" ∧ c ≠ ".") (split_on "/" p).

(** [Path(p).name]: the last component, [''] when there is none. *)
Definition path_name (p : string) : string := List.last (path_parts p) "".

(** [Path(p).suffix]:
<<
    name = self.name
    i = name.rfind('.')
    if 0 < i < len(name) - 1: return name[i:]
    else: return ''
>> *)
Definition path_suffix (p : string) : string :=
  let name := path_name p in
  match rfind "." name with
  | Some i =>
      if ((0 <? i)%nat && (i <? String.length name - 1)%nat)%bool
      then drop_str i name
      else ""
  | None => ""
  end.

End PyPath.

Import PyStr PyPath.

(** ** Exceptions, responses and the outside world *)

(** The exception classes that can reach the program.  All of them are
    subclasses of [Exception]; [sys.exit] is kept apart (see [result])
    because [except Exception] does not catch it. *)
Inductive exn_class :=
| HttpError          (* googleapiclient.errors.HttpError *)
| TransportError     (* any other failure of [request.execute()] *)
| ValueError
| PlainException     (* [raise Exception(...)] *)
| OSError            (* [open] *)
| RequestException   (* [requests.post] *)
| JSONError          (* [response.json()["text"]] *)
| DownloadError      (* yt-dlp *)
| APIError.          (* the Groq client *)

Record exn := Exn { exn_class_of : exn_class; exn_str : string }.

Global Instance exn_class_eq_dec : EqDecision exn_class.
Proof. solve_decision. Defined.

Global Instance exn_eq_dec : EqDecision exn.
Proof. solve_decision. Defined.

(** One page of [youtube.search().list(...)]: the video ids of its items;
    [None] when the response has no ["items"] key. *)
Record search_page := SearchPage { sp_items : option (list string) }.

(** An item of [youtube.videos().list(part="snippet,contentDetails")]. *)
Record video_item := VideoItem { snippet_title : string }.
Record videos_response := VideosResponse { vr_items : option (list video_item) }.

(** An item of [youtube.captions().list(part="snippet")]. *)
Record caption_item := CaptionItem { trackKind : string }.
Record captions_response :=
  CaptionsResponse { cr_items : option (list caption_item) }.

(** The answer of [requests.post]; [json_text] is [response.json()["text"]]
    when the body is JSON with that key, and [json_error] is the [str] of
    the exception that the expression raises when it is not (a decode
    error of the body, or the [KeyError] of the missing key). *)
Record http_response := HttpResponse {
  status_code : nat;
  text : string;
  json_text : option string;
  json_error : string
}.

(** The remote services and tools, as the answers they give.  A service
    answers a request by its payload, so asking twice gives the same
    answer. *)
Record world := World {
  (** first page of the search, and the pages [list_next] leads to *)
  search_first : option string → exn + search_page;
  search_next : option string → list (exn + search_page);
  videos_list : string → exn + videos_response;
  captions_list : string → exn + captions_response;
  (** yt-dlp, from the url and the output template: the mp3 bytes that
      its FFmpegExtractAudio post-processor leaves at [outtmpl + ".mp3"] *)
  yt_dlp : string → string → exn + string;
  (** the speech-to-text endpoint, from the uploaded bytes; the left
      summand is the message of a [requests] exception *)
  groq_transcriptions : string → string + http_response;
  groq_chat : string → exn + string;
  (** [open(path, "w")]: the message of the [OSError], if it fails *)
  open_w_error : string → option string;
  (** [f.write(text)] and the close of the file, once it is open: the
      exception if they fail, with what has reached the file by then
      (nothing, when the failure comes before anything is flushed) *)
  write_error : string → string → option (exn * string);
  (** [str] of the set [audio_file_types], whose order Python does not fix *)
  audio_file_types_str : string
}.

(** What the program does to the outside, in order. *)
Inductive event :=
| Stdout (line : string)
| Makedirs (path : string)
| ApiSearchList (channelId : option string) (page : nat)
| ApiVideosList (video_id : string)
| ApiCaptionsList (video_id : string)
| YtDlpDownload (url outtmpl : string)
| PostTranscription (audio : string)
| ChatCompletion (prompt : string).

Global Instance event_eq_dec : EqDecision event.
Proof. solve_decision. Defined.

(** The calls that leave the machine. *)
Definition external_call (ev : event) : bool :=
  match ev with
  | Stdout _ | Makedirs _ => false
  | _ => true
  end.

Record state := State {
  fs : gmap string string;     (* path ↦ bytes of the files that exist *)
  trace : list event
}.

(** ** The monad: state, exceptions and [sys.exit] *)

Inductive result (A : Type) :=
| Ok (a : A)
| Raise (e : exn)
| Exit (code : nat).
Arguments Ok {A} a.
Arguments Raise {A} e.
Arguments Exit {A} code.

Definition M (A : Type) : Type := state → result A * state.

Definition ret {A} (a : A) : M A := λ st, (Ok a, st).

Definition bind {A B} (m : M A) (k : A → M B) : M B :=
  λ st, match m st with
        | (Ok a, st') => k a st'
        | (Raise e, st') => (Raise e, st')
        | (Exit c, st') => (Exit c, st')
        end.

Notation "x <- m ;; k" := (bind m (λ x, k))
  (at level 100, m at next level, right associativity).
Notation "m ;;; k" := (bind m (λ _, k))
  (at level 100, right associativity).

Definition raise {A} (e : exn) : M A := λ st, (Raise e, st).
Definition sys_exit {A} (code : nat) : M A := λ st, (Exit code, st).

(** [try: m  except Exception as e: h e] *)
Definition try_except {A} (m : M A) (h : exn → M A) : M A :=
  λ st, match m st with
        | (Raise e, st') => h e st'
        | r => r
        end.

(** [try: m  except HttpError as e: h e] *)
Definition try_except_HttpError {A} (m : M A) (h : exn → M A) : M A :=
  λ st, match m st with
        | (Raise e, st') =>
            if decide (exn_class_of e = HttpError) then h e st'
            else (Raise e, st')
        | r => r
        end.

Definition emit (ev : event) : M unit :=
  λ st, (Ok tt, State (fs st) (trace st ++ [ev])).

Definition print (line : string) : M unit := emit (Stdout line).

(** A remote call: it is recorded, then answers or raises. *)
Definition call {A} (ev : event) (answer : exn + A) : M A :=
  emit ev ;;;
  match answer with
  | inl e => raise e
  | inr a => ret a
  end.

Definition os_path_exists (path : string) : M bool :=
  λ st, (Ok (bool_decide (is_Some (fs st !! path))), st).

Definition write_file (path content : string) : M unit :=
  λ st, (Ok tt, State (<[path := content]> (fs st)) (trace st)).

(** The exit status of the process: an uncaught exception ends it with
    status 1. *)
Definition exit_status {A} (r : result A) : nat :=
  match r with
  | Ok _ => 0
  | Raise _ => 1
  | Exit c => c
  end.

(** ** The program *)

Definition nl : string := String (ascii_of_nat 10) EmptyString.

(** [audio_file_types] of [transcribe_audio]. *)
Definition audio_file_types : gset string :=
  {[ ".mp3"; ".wav"; ".m4a"; ".flac" ]}.

(** [response.get("items", [])] *)
Definition get_items {A} (items : option (list A)) : list A :=
  default [] items.

(** [not value] for the result of [os.environ.get]: unset or empty. *)
Definition not_set (value : option string) : bool :=
  match value with
  | None => true
  | Some s => bool_decide (s = "")
  end.

(** The body of the [for] loop of [check_for_transcription]: skip the
    automatically generated tracks, answer [True] at the first other one. *)
Fixpoint has_manual_track (items : list caption_item) : bool :=
  match items with
  | [] => false
  | item :: rest =>
      if bool_decide (trackKind item = "ASR") then has_manual_track rest
      else true
  end.

Definition audio_file_basename (index : nat) : string :=
  os_path_join "audio_files" (fmt_int index).

Definition audio_file_path (index : nat) : string :=
  audio_file_basename index +:+ ".mp3".

Definition file_path (index : nat) : string :=
  os_path_join "transcriptions" (fmt_int index +:+ ".md").

Definition watch_url (video_id : string) : string :=
  "https://www.youtube.com/watch?v=" +:+ video_id.

Definition format_prompt (transcription : string) : string :=
  "Edit the following transcription into topics using markdown. Try" +:+ nl
  +:+ "    to recognize when something is a song lyric instead of conversational"
  +:+ nl +:+ "    text.:" +:+ nl +:+ nl +:+ transcription.

(** The test of [transcribe_audio]:
    [Path(audio_file_path).suffix.lower() in audio_file_types]. *)
Definition suffix_supported (path : string) : bool :=
  bool_decide (lower (path_suffix path) ∈ audio_file_types).

Section Program.

Variable w : world.

(** The [while request:] loop over the pages that follow the first. *)
Fixpoint get_video_ids_next (channel_id : option string) (page : nat)
    (pages : list (exn + search_page)) (video_ids : list string)
    : M (list string) :=
  match pages with
  | [] => ret video_ids
  | answer :: pages' =>
      response <- call (ApiSearchList channel_id page) answer ;;
      get_video_ids_next channel_id (S page) pages'
        (video_ids ++ get_items (sp_items response))
  end.

Definition get_video_ids (channel_id : option string) : M (list string) :=
  response <- call (ApiSearchList channel_id 0) (search_first w channel_id) ;;
  get_video_ids_next channel_id 1 (search_next w channel_id)
    (get_items (sp_items response)).

Definition get_video_details (video_id : string) : M (option video_item) :=
  response <- call (ApiVideosList video_id) (videos_list w video_id) ;;
  ret (head (get_items (vr_items response))).

Definition check_for_transcription (video_id : string) : M bool :=
  response <- call (ApiCaptionsList video_id) (captions_list w video_id) ;;
  ret (has_manual_track (get_items (cr_items response))).

(** [with YoutubeDL(ydl_opts) as ydl: ydl.download([url])] *)
Definition ydl_download (url outtmpl : string) : M unit :=
  audio <- call (YtDlpDownload url outtmpl) (yt_dlp w url outtmpl) ;;
  write_file (outtmpl +:+ ".mp3") audio.

Definition download_audio (video_id : string) (index : nat)
    : M (option string) :=
  cached <- os_path_exists (audio_file_path index) ;;
  if cached : bool then
    print ("Audio file " +:+ audio_file_path index
           +:+ " already exists. Skipping download.") ;;;
    ret (Some (audio_file_path index))
  else
    try_except
      (ydl_download (watch_url video_id) (audio_file_basename index) ;;;
       ret (Some (audio_file_path index)))
      (λ e,
        print ("Error downloading audio for video ID " +:+ video_id
               +:+ ": " +:+ exn_str e) ;;;
        ret None).

(** [open(audio_file_path, "rb")]: the bytes of the file, or the
    [FileNotFoundError] whose [str] ends with the [repr] of the name. *)
Definition open_rb (path : string) : M string :=
  λ st, match fs st !! path with
        | Some bytes => (Ok bytes, st)
        | None =>
            (Raise (Exn OSError
               ("[Errno 2] No such file or directory: " +:+ py_repr path)),
             st)
        end.

(** [requests.post(url, headers=headers, files=files, data=data)] *)
Definition requests_post (audio : string) : M http_response :=
  call (PostTranscription audio)
    (match groq_transcriptions w audio with
     | inl msg => inl (Exn RequestException msg)
     | inr response => inr response
     end).

Definition transcribe_audio (path : string) : M string :=
  if negb (suffix_supported path) then
    raise (Exn ValueError
      ("Unsupported audio format for " +:+ path
       +:+ ". Supported formats: " +:+ audio_file_types_str w))
  else
    f <- open_rb path ;;
    response <- requests_post f ;;
    if bool_decide (status_code response = 200) then
      match json_text response with
      | Some t => ret t
      | None => raise (Exn JSONError (json_error response))
      end
    else
      raise (Exn PlainException ("Transcription failed: " +:+ text response)).

Definition query_groq (prompt : string) : M string :=
  call (ChatCompletion prompt) (groq_chat w prompt).

Definition format_transcription (transcription : string) : M string :=
  query_groq (format_prompt transcription).

(** [with open(file_path, "w", encoding="utf-8") as f: f.write(...)]:
    when [open] fails nothing is created; once it has succeeded the file
    exists and is empty, and the write either puts the whole text there
    or fails, leaving what had reached the file. *)
Definition open_w_write (path content : string) : M unit :=
  match open_w_error w path with
  | Some msg => raise (Exn OSError msg)
  | None =>
      write_file path "" ;;;
      match write_error w path content with
      | Some (e, flushed) => write_file path flushed ;;; raise e
      | None => write_file path content
      end
  end.

Definition process_video (video_id : string) (index : nat) : M unit :=
  video_details <- get_video_details video_id ;;
  match video_details with
  | None => print ("Video details not found for ID: " +:+ video_id)
  | Some details =>
      print ("Processing video: " +:+ snippet_title details) ;;;
      done_before <- os_path_exists (file_path index) ;;
      if done_before : bool then
        print ("Transcription file " +:+ file_path index
               +:+ " already exists. Skipping transcription and formatting.")
      else
        captioned <- check_for_transcription video_id ;;
        if captioned : bool then
          print ("Video ID " +:+ video_id
                 +:+ " already has a transcription. Skipping download and transcription.")
        else
          audio <- download_audio video_id index ;;
          match audio with
          | None =>
              print ("Failed to download audio for video ID: " +:+ video_id)
          | Some path =>
              (* [try: ... except Exception as e: print(...); return] *)
              transcription <-
                try_except
                  (t <- transcribe_audio path ;; ret (Some t))
                  (λ e,
                    print ("Transcription failed for " +:+ path +:+ ": "
                           +:+ exn_str e) ;;;
                    ret None) ;;
              match transcription with
              | None => ret tt
              | Some transcription =>
                  formatted_transcription <-
                    format_transcription transcription ;;
                  try_except
                    (open_w_write (file_path index) formatted_transcription ;;;
                     print ("Saved edited transcription to "
                            +:+ file_path index))
                    (λ e,
                      print ("Failed to write transcription to "
                             +:+ file_path index +:+ ": " +:+ exn_str e))
              end
          end
  end.

(** [for index, video_id in enumerate(video_ids, start=1)] *)
Fixpoint enumerate (video_ids : list string) (start : nat)
    : list (nat * string) :=
  match video_ids with
  | [] => []
  | video_id :: rest => (start, video_id) :: enumerate rest (S start)
  end.

Fixpoint for_each_video (indexed : list (nat * string)) : M unit :=
  match indexed with
  | [] => ret tt
  | (index, video_id) :: rest =>
      process_video video_id index ;;;
      for_each_video rest
  end.

Definition main (channel_id : option string) : M unit :=
  video_ids <-
    try_except_HttpError
      (video_ids <- get_video_ids channel_id ;;
       print ("Found " +:+ fmt_int (length video_ids) +:+ " videos.") ;;;
       ret video_ids)
      (λ e,
        print ("An HTTP error occurred: " +:+ exn_str e) ;;;
        sys_exit 1) ;;
  for_each_video (enumerate video_ids 1).

(** The module body, top to bottom, then [main()]. *)
Definition program (environ : gmap string string) : M unit :=
  let GROQ_API_KEY := environ !! "GROQ_API_KEY" in
  let YOUTUBE_API_KEY := environ !! "YT_API_KEY" in
  if not_set GROQ_API_KEY then
    print "Error: GROQ_API_KEY is not set." ;;; sys_exit 1
  else if not_set YOUTUBE_API_KEY then
    print "Error: YOUTUBE_API_KEY is not set." ;;; sys_exit 1
  else
    let channel_id := environ !! "CHANNEL_ID" in
    emit (Makedirs "audio_files") ;;;
    emit (Makedirs "transcriptions") ;;;
    main channel_id.

End Program.

(** ** Observations on a run *)

(** The three calls that cost money or bandwidth: the audio download, the
    speech-to-text request and the chat completion. *)
Definition costly_call (ev : event) : bool :=
  match ev with
  | YtDlpDownload _ _ | PostTranscription _ | ChatCompletion _ => true
  | _ => false
  end.

(** What processing one video does when it is run on its own from the
    files [files]: how it ends, and what it does to the outside. *)
Definition video_run (w : world) (indexed : nat * string)
    (files : gmap string string) : result unit * list event :=
  let '(r, st) := process_video w indexed.2 indexed.1 (State files []) in
  (r, trace st).

(** The same observation for each video that the loop of [main] reaches,
    in order: the loop goes on after a video exactly when processing it
    returned. *)
Fixpoint batch_runs (w : world) (indexed : list (nat * string))
    (files : gmap string string) : list (result unit * list event) :=
  match indexed with
  | [] => []
  | (index, video_id) :: rest =>
      let '(r, st) := process_video w video_id index (State files []) in
      (r, trace st) ::
      match r with
      | Ok _ => batch_runs w rest (fs st)
      | _ => []
      end
  end.

(** The rest of [process_video] once its three gates are passed: the
    download, the transcription, the formatting and the write. *)
Definition after_gates (w : world) (video_id : string) (index : nat)
    : M unit :=
  audio <- download_audio w video_id index ;;
  match audio with
  | None => print ("Failed to download audio for video ID: " +:+ video_id)
  | Some path =>
      transcription <-
        try_except
          (t <- transcribe_audio w path ;; ret (Some t))
          (λ e,
            print ("Transcription failed for " +:+ path +:+ ": "
                   +:+ exn_str e) ;;;
            ret None) ;;
      match transcription with
      | None => ret tt
      | Some transcription =>
          formatted_transcription <- format_transcription w transcription ;;
          try_except
            (open_w_write w (file_path index) formatted_transcription ;;;
             print ("Saved edited transcription to " +:+ file_path index))
            (λ e,
              print ("Failed to write transcription to "
                     +:+ file_path index +:+ ": " +:+ exn_str e))
      end
  end.

(** The state in which the download starts: the three gates have left
    their calls and the title line in the trace. *)
Definition gates_passed (video_id title : string) (st : state) : state :=
  State (fs st)
    (trace st ++
     [ApiVideosList video_id; Stdout ("Processing video: " +:+ title);
      ApiCaptionsList video_id]).

(** How processing a video may end: it returns, or it lets through an
    exception of the details fetch, of the caption listing or of the chat
    completion; it never exits. *)
Definition escapes (w : world) (video_id : string) (r : result unit) : Prop :=
  match r with
  | Ok _ => True
  | Raise e =>
      videos_list w video_id = inl e ∨ captions_list w video_id = inl e ∨
      ∃ prompt, groq_chat w prompt = inl e
  | Exit _ => False
  end.

(** What [transcribe_audio] makes of the bytes it uploads: the text of a
    200 answer, or the exception it raises. *)
Definition transcription_of (w : world) (audio : string) : exn + string :=
  match groq_transcriptions w audio with
  | inl msg => inl (Exn RequestException msg)
  | inr response =>
      if bool_decide (status_code response = 200) then
        match json_text response with
        | Some t => inr t
        | None => inl (Exn JSONError (json_error response))
        end
      else inl (Exn PlainException ("Transcription failed: " +:+ text response))
  end.

(** The search calls of a catalog of [n] pages. *)
Definition search_calls (channel_id : option string) (first n : nat)
    : list event :=
  ApiSearchList channel_id <$> seq first n.

(** The video ids on the pages that answered. *)
Definition page_ids (pages : list search_page) : list string :=
  concat ((λ page, get_items (sp_items page)) <$> pages).

(** The pages of a channel, the first one included. *)
Definition search_pages (w : world) (channel_id : option string)
    : list (exn + search_page) :=
  search_first w channel_id :: search_next w channel_id.

(** The lines that [process_video] prints around the transcription and
    the write. *)
Definition transcription_failed_line (path : string) (e : exn) : event :=
  Stdout ("Transcription failed for " +:+ path +:+ ": " +:+ exn_str e).

Definition write_failed_line (index : nat) (msg : string) : event :=
  Stdout ("Failed to write transcription to " +:+ file_path index +:+ ": "
          +:+ msg).

Definition saved_line (index : nat) : event :=
  Stdout ("Saved edited transcription to " +:+ file_path index).

(** The files once the audio [audio] of an index has gone through the
    transcription, the formatting and the write: nothing changes unless
    the output file is opened, and then it holds the formatted text, or
    what had reached it when the write failed. *)
Definition files_after (w : world) (index : nat) (audio : string)
    (files : gmap string string) : gmap string string :=
  match transcription_of w audio with
  | inl _ => files
  | inr t =>
      match groq_chat w (format_prompt t) with
      | inl _ => files
      | inr formatted =>
          match open_w_error w (file_path index) with
          | Some _ => files
          | None =>
              match write_error w (file_path index) formatted with
              | Some (_, flushed) => <[file_path index := flushed]> files
              | None => <[file_path index := formatted]> files
              end
          end
      end
  end.

(** What the videos of [indexed] do, one after the other, when each is
    run on its own from the files [files]. *)
Definition runs_trace (w : world) (files : gmap string string)
    (indexed : list (nat * string)) : list event :=
  concat ((λ iv, (video_run w iv files).2) <$> indexed).

(** A computation is local to a set of paths when it reads and writes
    the file system only there, and only adds to the trace. *)
Definition local_to (paths : gset string) {A} (m : M A) : Prop :=
  ∀ st1 st2,
    (∀ p, p ∈ paths → fs st1 !! p = fs st2 !! p) →
    ∃ r evs files1 files2,
      m st1 = (r, State files1 (trace st1 ++ evs)) ∧
      m st2 = (r, State files2 (trace st2 ++ evs)) ∧
      (∀ p, p ∈ paths → files1 !! p = files2 !! p) ∧
      (∀ p, p ∉ paths → files1 !! p = fs st1 !! p ∧ files2 !! p = fs st2 !! p).

(** The two files that belong to an index. *)
Definition paths_of (index : nat) : gset string :=
  {[ audio_file_path index; file_path index ]}.

(** ** Concrete worlds *)

(** A channel with three videos: ["a"] has a manual caption track next to
    the automatic one, ["b"] has none, and the details of ["c"] are not
    found.  Every service answers. *)
Definition demo_world : world := {|
  search_first := λ _, inr (SearchPage (Some ["a"; "b"]));
  search_next := λ _, [inr (SearchPage (Some ["c"]))];
  videos_list := λ v,
    if decide (v = "c") then inr (VideosResponse (Some []))
    else inr (VideosResponse (Some [VideoItem ("Title of " +:+ v)]));
  captions_list := λ v,
    if decide (v = "a")
    then inr (CaptionsResponse (Some [CaptionItem "ASR"; CaptionItem "standard"]))
    else inr (CaptionsResponse None);
  yt_dlp := λ url _, inr ("mp3 of " +:+ url);
  groq_transcriptions := λ _, inr (HttpResponse 200 "{}" (Some "hello") "");
  groq_chat := λ _, inr "# Topic";
  open_w_error := λ _, None;
  write_error := λ _ _, None;
  audio_file_types_str := "{'.mp3', '.wav', '.m4a', '.flac'}"
|}.

(** A world with other answers from one service. *)
Definition with_search (first : option string → exn + search_page)
    (next : option string → list (exn + search_page)) (w : world) : world :=
  World first next (videos_list w) (captions_list w) (yt_dlp w)
    (groq_transcriptions w) (groq_chat w) (open_w_error w) (write_error w)
    (audio_file_types_str w).

Definition with_videos_list (f : string → exn + videos_response) (w : world)
    : world :=
  World (search_first w) (search_next w) f (captions_list w) (yt_dlp w)
    (groq_transcriptions w) (groq_chat w) (open_w_error w) (write_error w)
    (audio_file_types_str w).

Definition with_captions_list (f : string → exn + captions_response)
    (w : world) : world :=
  World (search_first w) (search_next w) (videos_list w) f (yt_dlp w)
    (groq_transcriptions w) (groq_chat w) (open_w_error w) (write_error w)
    (audio_file_types_str w).

Definition with_yt_dlp (f : string → string → exn + string) (w : world)
    : world :=
  World (search_first w) (search_next w) (videos_list w) (captions_list w) f
    (groq_transcriptions w) (groq_chat w) (open_w_error w) (write_error w)
    (audio_file_types_str w).

Definition with_groq_transcriptions (f : string → string + http_response)
    (w : world) : world :=
  World (search_first w) (search_next w) (videos_list w) (captions_list w)
    (yt_dlp w) f (groq_chat w) (open_w_error w) (write_error w)
    (audio_file_types_str w).

Definition with_groq_chat (f : string → exn + string) (w : world) : world :=
  World (search_first w) (search_next w) (videos_list w) (captions_list w)
    (yt_dlp w) (groq_transcriptions w) f (open_w_error w) (write_error w)
    (audio_file_types_str w).

Definition with_open_w_error (f : string → option string) (w : world)
    : world :=
  World (search_first w) (search_next w) (videos_list w) (captions_list w)
    (yt_dlp w) (groq_transcriptions w) (groq_chat w) f (write_error w)
    (audio_file_types_str w).

Definition with_write_error (f : string → string → option (exn * string))
    (w : world) : world :=
  World (search_first w) (search_next w) (videos_list w) (captions_list w)
    (yt_dlp w) (groq_transcriptions w) (groq_chat w) (open_w_error w) f
    (audio_file_types_str w).

Definition demo_environ : gmap string string :=
  {[ "GROQ_API_KEY" := "gsk"; "YT_API_KEY" := "AIza"; "CHANNEL_ID" := "UC1" ]}.

Definition fresh : state := State ∅ [].

(** * Facts about the embedding *)

(** ** Decimal numerals and paths *)

Example fmt_int_120 : fmt_int 120 = "120".
Proof. reflexivity. Qed.

Example suffix_mp3 : path_suffix "audio_files/12.mp3" = ".mp3".
Proof. reflexivity. Qed.

Example suffix_hidden : path_suffix "audio_files/.mp3" = "".
Proof. reflexivity. Qed.

Example suffix_upper : lower (path_suffix "/tmp/a.b/Talk.FLAC") = ".flac".
Proof. reflexivity. Qed.

Example join_audio : os_path_join "audio_files" (fmt_int 7) = "audio_files/7".
Proof. reflexivity. Qed.

Section PathFacts.

Lemma string_of_uint_digits d :
  all_digits (NilEmpty.string_of_uint d) = true.
Proof. induction d; simpl; auto. Qed.

Lemma fmt_int_digits n : all_digits (fmt_int n) = true.
Proof. apply string_of_uint_digits. Qed.

Lemma fmt_int_inj i j : fmt_int i = fmt_int j → i = j.
Proof.
  unfold fmt_int. intros H.
  apply Unsigned.to_uint_inj.
  assert (Some (Nat.to_uint i) = Some (Nat.to_uint j)) as [= ->]; [|done].
  by rewrite <- !NilEmpty.usu, H.
Qed.

Lemma fmt_int_nonempty n : ∃ a s, fmt_int n = String a s ∧ is_digit a = true.
Proof.
  pose proof (fmt_int_digits n) as Hd.
  destruct (fmt_int n) as [|a s] eqn:E.
  - exfalso. unfold fmt_int in E.
    pose proof (NilEmpty.usu (Nat.to_uint n)) as Hu. rewrite E in Hu.
    simpl in Hu. injection Hu as Hu.
    pose proof (Unsigned.of_to n) as Hn. rewrite <- Hu in Hn.
    destruct n; [|discriminate].
    by vm_compute in Hu.
  - exists a, s. simpl in Hd. by apply andb_prop in Hd as [-> _].
Qed.

Lemma digit_not_slash a : is_digit a = true → a ≠ "/"%char.
Proof. intros H ->. by vm_compute in H. Qed.

Lemma digit_not_dot a : is_digit a = true → a ≠ "."%char.
Proof. intros H ->. by vm_compute in H. Qed.

Lemma digits_no_slash s : all_digits s = true → contains "/" s = false.
Proof.
  induction s as [|a s IH]; simpl; [done|].
  intros [Ha Hs]%andb_prop.
  destruct (decide (a = "/"%char)) as [->|_]; [by vm_compute in Ha|auto].
Qed.

Lemma digits_no_dot s : all_digits s = true → contains "." s = false.
Proof.
  induction s as [|a s IH]; simpl; [done|].
  intros [Ha Hs]%andb_prop.
  destruct (decide (a = "."%char)) as [->|_]; [by vm_compute in Ha|auto].
Qed.

End PathFacts.

Section PathShape.

Lemma no_slash_split s : contains "/" s = false → split_on "/" s = [s].
Proof.
  induction s as [|a s IH]; simpl; [done|].
  destruct (decide (a = "/"%char)); [done|].
  intros H. by rewrite (IH H).
Qed.

Lemma contains_app c s t :
  contains c (s +:+ t) = contains c s || contains c t.
Proof.
  induction s as [|a s IH]; simpl; [done|].
  by destruct (decide (a = c)).
Qed.

Lemma rfind_none c s : contains c s = false → rfind c s = None.
Proof.
  induction s as [|a s IH]; simpl; [done|].
  destruct (decide (a = c)); [done|].
  intros H. by rewrite (IH H).
Qed.

(** The last dot of [d ++ "." ++ e] is the one in the middle when [e]
    has none. *)
Lemma rfind_dot_app d e :
  contains "." e = false →
  rfind "." (d +:+ String "." e) = Some (String.length d).
Proof.
  intros He. induction d as [|a d IH]; simpl.
  - by rewrite (rfind_none _ _ He).
  - by rewrite IH.
Qed.

Lemma drop_str_app d t : drop_str (String.length d) (d +:+ t) = t.
Proof. induction d as [|a d IH]; simpl; [by destruct t|done]. Qed.

Lemma length_app d t :
  String.length (d +:+ t) = String.length d + String.length t.
Proof. induction d as [|a d IH]; simpl; [done|by rewrite IH]. Qed.

Lemma app_inj_r s a b : a +:+ s = b +:+ s → a = b.
Proof.
  revert b. induction a as [|x a IH]; intros [|y b]; [done|..].
  - intros H. apply (f_equal String.length) in H.
    rewrite !length_app in H. simpl in H. lia.
  - intros H. apply (f_equal String.length) in H.
    rewrite !length_app in H. simpl in H. lia.
  - simpl. intros [= -> H]. by rewrite (IH _ H).
Qed.

Lemma audio_file_basename_eq index :
  audio_file_basename index = "audio_files/" +:+ fmt_int index.
Proof.
  unfold audio_file_basename, os_path_join.
  destruct (fmt_int_nonempty index) as (a & s & -> & Ha).
  simpl. rewrite bool_decide_eq_false_2; [done|].
  by apply digit_not_slash.
Qed.

Lemma audio_file_path_eq index :
  audio_file_path index = "audio_files/" +:+ fmt_int index +:+ ".mp3".
Proof. unfold audio_file_path. by rewrite audio_file_basename_eq. Qed.

Lemma file_path_eq index :
  file_path index = "transcriptions/" +:+ fmt_int index +:+ ".md".
Proof.
  unfold file_path, os_path_join.
  destruct (fmt_int_nonempty index) as (a & s & -> & Ha).
  simpl. rewrite bool_decide_eq_false_2; [done|].
  by apply digit_not_slash.
Qed.

Lemma audio_file_path_inj i j :
  audio_file_path i = audio_file_path j → i = j.
Proof.
  rewrite !audio_file_path_eq. intros H.
  apply (inj (String.app "audio_files/")) in H.
  by apply fmt_int_inj, (app_inj_r ".mp3").
Qed.

Lemma file_path_inj i j : file_path i = file_path j → i = j.
Proof.
  rewrite !file_path_eq. intros H.
  apply (inj (String.app "transcriptions/")) in H.
  by apply fmt_int_inj, (app_inj_r ".md").
Qed.

Lemma audio_file_path_ne_file_path i j : audio_file_path i ≠ file_path j.
Proof. rewrite audio_file_path_eq, file_path_eq. discriminate. Qed.

Lemma split_audio_files name :
  split_on "/" ("audio_files/" +:+ name) = "audio_files" :: split_on "/" name.
Proof. reflexivity. Qed.

(** The file that [download_audio] names is an mp3 for [pathlib]. *)
Lemma audio_file_path_suffix index :
  path_suffix (audio_file_path index) = ".mp3".
Proof.
  rewrite audio_file_path_eq.
  pose proof (fmt_int_digits index) as Hd.
  destruct (fmt_int_nonempty index) as (a & s & E & Ha).
  set (name := fmt_int index +:+ ".mp3").
  assert (contains "/" name = false) as Hslash.
  { unfold name. rewrite contains_app, digits_no_slash; done. }
  assert (path_name ("audio_files/" +:+ name) = name) as Hname.
  { unfold path_name, path_parts.
    rewrite split_audio_files, (no_slash_split _ Hslash).
    rewrite filter_cons_True by done.
    rewrite filter_cons_True; [done|].
    unfold name. rewrite E. simpl.
    split; [done|]. intros [= _ H]. by destruct s. }
  assert (0 < String.length (fmt_int index)) as Hlen
    by (rewrite E; simpl; lia).
  unfold path_suffix. rewrite Hname. unfold name.
  rewrite (rfind_dot_app (fmt_int index) "mp3" eq_refl).
  rewrite length_app, drop_str_app.
  change (String.length ".mp3") with 4.
  rewrite (proj2 (Nat.ltb_lt _ _) Hlen).
  by rewrite (proj2 (Nat.ltb_lt _ _)) by lia.
Qed.

End PathShape.

(** ** Running the monad *)

Ltac run :=
  unfold call, print, emit, os_path_exists, write_file, raise, ret, bind,
         try_except, try_except_HttpError, sys_exit;
  simpl.

Lemma state_eta st : State (fs st) (trace st) = st.
Proof. by destruct st. Qed.

(** ** The catalog is numbered from 1 *)

Lemma enumerate_fst video_ids start :
  (enumerate video_ids start).*1 = seq start (length video_ids).
Proof.
  revert start. induction video_ids as [|v l IH]; intros start; simpl; [done|].
  by rewrite IH.
Qed.

Lemma enumerate_snd video_ids start : (enumerate video_ids start).*2 = video_ids.
Proof.
  revert start. induction video_ids as [|v l IH]; intros start; simpl; [done|].
  by rewrite IH.
Qed.

Lemma enumerate_lookup video_ids start k video_id :
  video_ids !! k = Some video_id →
  enumerate video_ids start !! k = Some (start + k, video_id).
Proof.
  revert start k. induction video_ids as [|v l IH]; intros start [|k]; simpl;
    try done.
  - intros [= ->]. by rewrite Nat.add_0_r.
  - intros H. rewrite (IH (S start) k H). do 2 f_equal. lia.
Qed.

(** The pairs that [enumerate] makes from 1: the indices are 1, ..., N in
    the order of the list, without repeats. *)
Lemma enumerate_from_1 (video_ids : list string) :
  let indexed := enumerate video_ids 1 in
  indexed.*1 = seq 1 (length video_ids) ∧
  indexed.*2 = video_ids ∧
  NoDup indexed.*1 ∧
  (∀ i, i ∈ indexed.*1 ↔ 1 ≤ i ≤ length video_ids) ∧
  (∀ k video_id, video_ids !! k = Some video_id →
                 indexed !! k = Some (S k, video_id)).
Proof.
  simpl. rewrite enumerate_fst, enumerate_snd.
  split_and!; [done|done|apply NoDup_seq| |].
  - intros i. rewrite elem_of_seq. lia.
  - intros k v H. apply (enumerate_lookup _ 1 _ _ H).
Qed.

(** ** The audio cache *)

(** C5.  When a file already exists at [audio_files/<index>.mp3],
    [download_audio] returns that path whatever the video id is; it only
    prints a line: yt-dlp is not invoked and no file changes. *)
Theorem download_audio_cached (w : world) (video_id : string) (index : nat)
    (st : state) :
  is_Some (fs st !! audio_file_path index) →
  audio_file_path index = "audio_files/" +:+ fmt_int index +:+ ".mp3" ∧
  download_audio w video_id index st =
    (Ok (Some (audio_file_path index)),
     State (fs st)
       (trace st ++
        [Stdout ("Audio file " +:+ audio_file_path index
                 +:+ " already exists. Skipping download.")])).
Proof.
  intros Hcached. split; [apply audio_file_path_eq|].
  unfold download_audio. run.
  by rewrite bool_decide_eq_true_2.
Qed.

(** ** The format check of the transcriber *)

Lemma transcribe_audio_unsupported (w : world) path st :
  suffix_supported path = false →
  transcribe_audio w path st =
    (Raise (Exn ValueError
       ("Unsupported audio format for " +:+ path
        +:+ ". Supported formats: " +:+ audio_file_types_str w)), st).
Proof. intros H. unfold transcribe_audio. by rewrite H. Qed.

Lemma transcribe_audio_supported (w : world) path st :
  suffix_supported path = true →
  transcribe_audio w path st =
    (f <- open_rb path ;;
     response <- requests_post w f ;;
     if bool_decide (status_code response = 200) then
       match json_text response with
       | Some t => ret t
       | None => raise (Exn JSONError (json_error response))
       end
     else
       raise (Exn PlainException ("Transcription failed: " +:+ text response)))
    st.
Proof. intros H. unfold transcribe_audio. by rewrite H. Qed.

(** Every way [transcribe_audio] can end when the suffix is supported. *)
Lemma transcribe_audio_supported_cases (w : world) path st :
  suffix_supported path = true →
  (fs st !! path = None ∧
   transcribe_audio w path st =
     (Raise (Exn OSError
        ("[Errno 2] No such file or directory: " +:+ py_repr path)), st)) ∨
  (∃ f, fs st !! path = Some f ∧
     let st' := State (fs st) (trace st ++ [PostTranscription f]) in
     match groq_transcriptions w f with
     | inl msg =>
         transcribe_audio w path st = (Raise (Exn RequestException msg), st')
     | inr response =>
         if bool_decide (status_code response = 200) then
           match json_text response with
           | Some t => transcribe_audio w path st = (Ok t, st')
           | None =>
               transcribe_audio w path st = (Raise (Exn JSONError (json_error response)), st')
           end
         else
           transcribe_audio w path st =
             (Raise (Exn PlainException
                       ("Transcription failed: " +:+ text response)), st')
     end).
Proof.
  intros H. rewrite (transcribe_audio_supported _ _ _ H).
  unfold open_rb, requests_post. run.
  destruct (fs st !! path) as [f|] eqn:Hf; [right|left; by destruct st].
  exists f. split; [done|].
  destruct (groq_transcriptions w f) as [msg|response]; simpl; [done|].
  case_bool_decide; [|done]. by destruct (json_text response).
Qed.

Lemma transcribe_audio_no_value_error (w : world) path st msg :
  suffix_supported path = true →
  (transcribe_audio w path st).1 ≠ Raise (Exn ValueError msg).
Proof.
  intros H.
  destruct (transcribe_audio_supported_cases w path st H)
    as [[_ ->]|(f & _ & Hf)]; [done|].
  simpl in Hf. destruct (groq_transcriptions w f) as [?|response].
  - by rewrite Hf.
  - case_bool_decide; [destruct (json_text response)|]; by rewrite Hf.
Qed.

(** C8.  A path whose suffix, lower-cased, is not one of [.mp3], [.wav],
    [.m4a], [.flac] makes [transcribe_audio] raise its [ValueError] with
    the state untouched, so before the file is opened and before anything
    is posted; a path with one of these suffixes never gets that error. *)
Theorem transcribe_audio_format_check (w : world) (path : string) (st : state) :
  (suffix_supported path = false →
   transcribe_audio w path st =
     (Raise (Exn ValueError
        ("Unsupported audio format for " +:+ path
         +:+ ". Supported formats: " +:+ audio_file_types_str w)), st)) ∧
  (suffix_supported path = true →
   ∀ msg, (transcribe_audio w path st).1 ≠ Raise (Exn ValueError msg)) ∧
  (suffix_supported path = true ↔
   lower (path_suffix path) ∈ [".mp3"; ".wav"; ".m4a"; ".flac"]).
Proof.
  split_and!.
  - apply transcribe_audio_unsupported.
  - intros H msg. by apply transcribe_audio_no_value_error.
  - unfold suffix_supported, audio_file_types.
    rewrite bool_decide_eq_true, !elem_of_union, !elem_of_singleton.
    rewrite !elem_of_cons, elem_of_nil. tauto.
Qed.

Lemma mp3_suffix_supported other :
  lower (path_suffix other) = ".mp3" → suffix_supported other = true.
Proof. intros E. unfold suffix_supported. rewrite E. by vm_compute. Qed.

Lemma audio_file_path_supported index :
  suffix_supported (audio_file_path index) = true.
Proof. apply mp3_suffix_supported. by rewrite audio_file_path_suffix. Qed.


Lemma download_audio_cached_witness :
  audio_file_path 7 = "audio_files/" +:+ fmt_int 7 +:+ ".mp3" ∧
  download_audio demo_world "some other video" 7
      (State {[ audio_file_path 7 := "mp3" ]} []) =
    (Ok (Some (audio_file_path 7)),
     State {[ audio_file_path 7 := "mp3" ]}
       ([] ++
        [Stdout ("Audio file " +:+ audio_file_path 7
                 +:+ " already exists. Skipping download.")])).
Proof.
  exact (download_audio_cached demo_world "some other video" 7
           (State {[ audio_file_path 7 := "mp3" ]} [])
           (ex_intro _ "mp3" (lookup_singleton_eq _ _))).
Defined.

Lemma transcribe_audio_format_check_witness :
  transcribe_audio demo_world "notes/talk.txt" fresh =
    (Raise (Exn ValueError
       ("Unsupported audio format for notes/talk.txt. Supported formats: "
        +:+ audio_file_types_str demo_world)), fresh) ∧
  (∀ msg, (transcribe_audio demo_world "audio_files/1.MP3" fresh).1
          ≠ Raise (Exn ValueError msg)).
Proof.
  split.
  - apply (proj1 (transcribe_audio_format_check demo_world "notes/talk.txt" fresh)).
    reflexivity.
  - apply (proj1 (proj2 (transcribe_audio_format_check demo_world
                           "audio_files/1.MP3" fresh))).
    reflexivity.
Defined.


(** ** The gates of [process_video], one by one *)

Section Gates.

Variable w : world.
Variables (video_id : string) (index : nat) (st : state).

Lemma process_video_details_error e :
  videos_list w video_id = inl e →
  process_video w video_id index st =
    (Raise e, State (fs st) (trace st ++ [ApiVideosList video_id])).
Proof.
  intros H. unfold process_video, get_video_details. run. by rewrite H.
Qed.

Lemma process_video_not_found response :
  videos_list w video_id = inr response →
  head (get_items (vr_items response)) = None →
  process_video w video_id index st =
    (Ok tt,
     State (fs st)
       (trace st ++
        [ApiVideosList video_id;
         Stdout ("Video details not found for ID: " +:+ video_id)])).
Proof.
  intros H Hnone. unfold process_video, get_video_details. run.
  rewrite H. simpl. rewrite Hnone. simpl. by rewrite <- ?app_assoc.
Qed.

Section Found.

Variables (response : videos_response) (details : video_item).
Hypothesis Hresponse : videos_list w video_id = inr response.
Hypothesis Hdetails : head (get_items (vr_items response)) = Some details.

Lemma process_video_output_exists :
  is_Some (fs st !! file_path index) →
  process_video w video_id index st =
    (Ok tt,
     State (fs st)
       (trace st ++
        [ApiVideosList video_id;
         Stdout ("Processing video: " +:+ snippet_title details);
         Stdout ("Transcription file " +:+ file_path index
                 +:+ " already exists. Skipping transcription and formatting.")])).
Proof.
  intros Hout. unfold process_video, get_video_details. run.
  rewrite Hresponse. simpl. rewrite Hdetails. simpl.
  rewrite bool_decide_eq_true_2 by done.
  simpl. by rewrite <- ?app_assoc.
Qed.

Hypothesis Houtput : fs st !! file_path index = None.

Lemma process_video_captions_error e :
  captions_list w video_id = inl e →
  process_video w video_id index st =
    (Raise e, gates_passed video_id (snippet_title details) st).
Proof.
  intros Hcap. unfold process_video, get_video_details,
    check_for_transcription, gates_passed. run.
  rewrite Hresponse. simpl. rewrite Hdetails. simpl.
  rewrite bool_decide_eq_false_2 by (rewrite Houtput; by intros [? ?]).
  rewrite Hcap. simpl. simpl. by rewrite <- ?app_assoc.
Qed.

Lemma process_video_manual_caption captions :
  captions_list w video_id = inr captions →
  has_manual_track (get_items (cr_items captions)) = true →
  process_video w video_id index st =
    (Ok tt,
     State (fs st)
       (trace (gates_passed video_id (snippet_title details) st) ++
        [Stdout ("Video ID " +:+ video_id
                 +:+ " already has a transcription. Skipping download and transcription.")])).
Proof.
  intros Hcap Hmanual. unfold process_video, get_video_details,
    check_for_transcription, gates_passed. run.
  rewrite Hresponse. simpl. rewrite Hdetails. simpl.
  rewrite bool_decide_eq_false_2 by (rewrite Houtput; by intros [? ?]).
  rewrite Hcap. simpl. rewrite Hmanual. simpl. by rewrite <- ?app_assoc.
Qed.

Lemma process_video_after_gates captions :
  captions_list w video_id = inr captions →
  has_manual_track (get_items (cr_items captions)) = false →
  process_video w video_id index st =
    after_gates w video_id index
      (gates_passed video_id (snippet_title details) st).
Proof.
  intros Hcap Hmanual. unfold process_video, get_video_details,
    check_for_transcription, gates_passed, after_gates.
  unfold bind at 1 2 3 4 5 6. unfold call, emit, print, bind, ret, raise,
    os_path_exists. simpl.
  rewrite Hresponse. simpl. rewrite Hdetails. simpl.
  rewrite bool_decide_eq_false_2 by (rewrite Houtput; by intros [? ?]).
  rewrite Hcap. simpl. rewrite Hmanual. simpl. by rewrite <- ?app_assoc.
Qed.

End Found.

End Gates.

(** ** The output file as a gate *)

(** C1, as the code has it.  When [transcriptions/<index>.md] exists,
    processing the video makes one external call, the details fetch that
    opens [process_video], and none after it: no caption listing, no
    download, no transcription, no formatting.  No file changes.  The
    existence test comes after the details fetch, not before. *)
Theorem process_video_existing_output (w : world) (video_id : string)
    (index : nat) (st : state) :
  is_Some (fs st !! file_path index) →
  ∃ r evs,
    process_video w video_id index st = (r, State (fs st) (trace st ++ evs)) ∧
    head evs = Some (ApiVideosList video_id) ∧
    List.filter external_call evs = [ApiVideosList video_id].
Proof.
  intros Hout.
  destruct (videos_list w video_id) as [e|response] eqn:Hv.
  - eexists _, _. by rewrite (process_video_details_error _ _ _ _ _ Hv).
  - destruct (head (get_items (vr_items response))) as [details|] eqn:Hd.
    + eexists _, _.
      by rewrite (process_video_output_exists _ _ _ _ _ _ Hv Hd Hout).
    + eexists _, _. by rewrite (process_video_not_found _ _ _ _ _ Hv Hd).
Qed.

(** C1 as stated fails: with [transcriptions/1.md] in place, processing
    video ["a"] as number 1 still calls the details service. *)
Lemma existing_output_still_fetches_details :
  let st := State {[ file_path 1 := "# done" ]} [] in
  is_Some (fs st !! file_path 1) ∧
  List.filter external_call (trace (process_video demo_world "a" 1 st).2)
    = [ApiVideosList "a"] ∧
  ¬ (List.filter external_call (trace (process_video demo_world "a" 1 st).2)
       = []).
Proof. vm_compute. split_and!; [by eexists|done|done]. Qed.

Lemma process_video_existing_output_witness :
  ∃ r evs,
    process_video demo_world "a" 1 (State {[ file_path 1 := "# done" ]} [])
      = (r, State {[ file_path 1 := "# done" ]} ([] ++ evs)) ∧
    head evs = Some (ApiVideosList "a") ∧
    List.filter external_call evs = [ApiVideosList "a"].
Proof.
  exact (process_video_existing_output demo_world "a" 1
           (State {[ file_path 1 := "# done" ]} [])
           (ex_intro _ "# done" (lookup_singleton_eq _ _))).
Defined.

(** ** Manual captions *)

Lemma has_manual_track_iff items :
  has_manual_track items = true ↔
  ∃ item, item ∈ items ∧ trackKind item ≠ "ASR".
Proof.
  induction items as [|item rest IH]; simpl.
  - split; [done|]. intros (item & Hin & _). by apply elem_of_nil in Hin.
  - case_bool_decide as Hkind.
    + rewrite IH. split.
      * intros (x & Hin & Hx). exists x. split; [by right|done].
      * intros (x & Hin & Hx). apply elem_of_cons in Hin as [->|Hin]; [done|].
        by exists x.
    + split; [|done]. intros _. exists item. split; [by left|done].
Qed.

(** C4.  [check_for_transcription] answers [True] exactly when some listed
    track has a kind other than ["ASR"], and as soon as the loop meets
    one; and when it does, processing the video makes no download, no
    transcription and no formatting call, and changes no file. *)
Theorem manual_caption_exclusive (w : world) (video_id : string) (index : nat)
    (st : state) (captions : captions_response) :
  captions_list w video_id = inr captions →
  let items := get_items (cr_items captions) in
  (check_for_transcription w video_id st).1 = Ok (has_manual_track items) ∧
  (has_manual_track items = true ↔
   ∃ item, item ∈ items ∧ trackKind item ≠ "ASR") ∧
  (∀ item rest, trackKind item ≠ "ASR" → has_manual_track (item :: rest) = true) ∧
  (has_manual_track items = true →
   ∃ r evs,
     process_video w video_id index st = (r, State (fs st) (trace st ++ evs)) ∧
     Forall (λ ev, costly_call ev = false) evs).
Proof.
  intros Hcap items. split_and!.
  - unfold check_for_transcription. run. by rewrite Hcap.
  - apply has_manual_track_iff.
  - intros item rest Hkind. simpl. by rewrite bool_decide_eq_false_2.
  - intros Hmanual.
    destruct (videos_list w video_id) as [e|response] eqn:Hv.
    { eexists _, _. rewrite (process_video_details_error _ _ _ _ _ Hv).
      split; [done|]. by repeat constructor. }
    destruct (head (get_items (vr_items response))) as [details|] eqn:Hd.
    2:{ eexists _, _. rewrite (process_video_not_found _ _ _ _ _ Hv Hd).
        split; [done|]. by repeat constructor. }
    destruct (fs st !! file_path index) as [old|] eqn:Hout.
    { eexists _, _.
      rewrite (process_video_output_exists _ _ _ _ _ _ Hv Hd) by by rewrite Hout.
      split; [done|]. by repeat constructor. }
    eexists _, _.
    rewrite (process_video_manual_caption _ _ _ _ _ _ Hv Hd Hout _ Hcap Hmanual).
    unfold gates_passed. simpl. rewrite <- app_assoc. split; [done|].
    by repeat constructor.
Qed.

Lemma manual_caption_exclusive_witness :
  (check_for_transcription demo_world "a" fresh).1 = Ok true ∧
  ∃ r evs,
    process_video demo_world "a" 1 fresh = (r, State ∅ ([] ++ evs)) ∧
    Forall (λ ev, costly_call ev = false) evs.
Proof.
  pose proof (manual_caption_exclusive demo_world "a" 1 fresh
                (CaptionsResponse (Some [CaptionItem "ASR"; CaptionItem "standard"]))
                eq_refl) as (Hcheck & _ & _ & Hskip).
  split; [exact Hcheck|]. apply Hskip. reflexivity.
Defined.

(** ** Start-up *)

Lemma program_missing_groq_key (w : world) environ st :
  not_set (environ !! "GROQ_API_KEY") = true →
  program w environ st =
    (Exit 1,
     State (fs st) (trace st ++ [Stdout "Error: GROQ_API_KEY is not set."])).
Proof. intros H. unfold program. by rewrite H. Qed.

Lemma program_missing_youtube_key (w : world) environ st :
  not_set (environ !! "GROQ_API_KEY") = false →
  not_set (environ !! "YT_API_KEY") = true →
  program w environ st =
    (Exit 1,
     State (fs st) (trace st ++ [Stdout "Error: YOUTUBE_API_KEY is not set."])).
Proof. intros H1 H2. unfold program. by rewrite H1, H2. Qed.

(** With both keys set the program goes on to [main], whatever
    [CHANNEL_ID] is: it is read and passed on without a test. *)
Lemma program_keys_set (w : world) environ st :
  not_set (environ !! "GROQ_API_KEY") = false →
  not_set (environ !! "YT_API_KEY") = false →
  program w environ st =
    main w (environ !! "CHANNEL_ID")
      (State (fs st)
         (trace st ++ [Makedirs "audio_files"; Makedirs "transcriptions"])).
Proof.
  intros H1 H2. unfold program. rewrite H1, H2. run.
  by rewrite <- app_assoc.
Qed.

(** C6 at the input where the code departs from it.  With the two API
    keys set and [CHANNEL_ID] missing, the program does not stop at
    start-up: it creates the directories, lists the catalog with no
    channel id, processes the three videos and ends with status 0. *)
Theorem program_without_channel_id :
  let environ := delete "CHANNEL_ID" demo_environ in
  let run := program demo_world environ fresh in
  environ !! "CHANNEL_ID" = None ∧
  run.1 = Ok tt ∧
  exit_status run.1 = 0 ∧
  take 3 (trace run.2) =
    [Makedirs "audio_files"; Makedirs "transcriptions"; ApiSearchList None 0] ∧
  List.filter costly_call (trace run.2) =
    [YtDlpDownload "https://www.youtube.com/watch?v=b" "audio_files/2";
     PostTranscription "mp3 of https://www.youtube.com/watch?v=b";
     ChatCompletion (format_prompt "hello")].
Proof. vm_compute. done. Qed.

(** ** Remote errors inside the loop *)

Lemma for_each_video_cons (w : world) index video_id rest st :
  for_each_video w ((index, video_id) :: rest) st =
    match process_video w video_id index st with
    | (Ok _, st') => for_each_video w rest st'
    | (Raise e, st') => (Raise e, st')
    | (Exit c, st') => (Exit c, st')
    end.
Proof. done. Qed.

(** The catalog listing is the one place where an [HttpError] is
    handled: it is printed and the program exits with status 1. *)
Lemma main_catalog_http_error (w : world) channel_id st e st1 :
  get_video_ids w channel_id st = (Raise e, st1) →
  exn_class_of e = HttpError →
  main w channel_id st =
    (Exit 1,
     State (fs st1)
       (trace st1 ++ [Stdout ("An HTTP error occurred: " +:+ exn_str e)])).
Proof.
  intros Hids Hcls. unfold main. unfold bind at 1.
  unfold try_except_HttpError. unfold bind at 1. rewrite Hids.
  rewrite decide_True by done. by run.
Qed.

(** C7, as the code has it.  An error raised by the details fetch or by
    the caption listing of a video is not handled anywhere: it leaves
    [process_video] and the loop of [main] as it is, after the calls of
    that video alone, with nothing printed about it, and no later video
    is processed. *)
Theorem per_video_remote_error_aborts (w : world) (index : nat)
    (video_id : string) (rest : list (nat * string)) (st : state) (e : exn) :
  videos_list w video_id = inl e ∨
  (∃ response details,
     videos_list w video_id = inr response ∧
     head (get_items (vr_items response)) = Some details ∧
     fs st !! file_path index = None ∧
     captions_list w video_id = inl e) →
  ∃ evs,
    process_video w video_id index st =
      (Raise e, State (fs st) (trace st ++ evs)) ∧
    for_each_video w ((index, video_id) :: rest) st =
      (Raise e, State (fs st) (trace st ++ evs)) ∧
    exit_status (for_each_video w ((index, video_id) :: rest) st).1 = 1 ∧
    Forall (λ ev, ev = ApiVideosList video_id ∨ ev = ApiCaptionsList video_id ∨
                  ∃ title, ev = Stdout ("Processing video: " +:+ title)) evs.
Proof.
  intros [Hv|(response & details & Hv & Hd & Hout & Hcap)].
  - exists [ApiVideosList video_id].
    rewrite for_each_video_cons, (process_video_details_error _ _ _ _ _ Hv).
    split_and!; [done..|]. apply Forall_singleton. by left.
  - exists [ApiVideosList video_id;
            Stdout ("Processing video: " +:+ snippet_title details);
            ApiCaptionsList video_id].
    rewrite for_each_video_cons.
    rewrite (process_video_captions_error _ _ _ _ _ _ Hv Hd Hout _ Hcap).
    split_and!; [done..|].
    apply Forall_cons; split; [by left|].
    apply Forall_cons; split; [right; right; by eexists|].
    apply Forall_singleton. right; by left.
Qed.

(** C7 as stated fails: when the details fetch of the first video raises
    an [HttpError], the run ends there with the exception; nothing is
    printed about it and the second video is never looked at. *)
Lemma details_http_error_stops_the_batch :
  let e := Exn HttpError "<HttpError 403 quotaExceeded>" in
  let w := with_videos_list
             (λ v, if decide (v = "a") then inl e else videos_list demo_world v)
             demo_world in
  main w (Some "UC1") fresh =
    (Raise e,
     State ∅ [ApiSearchList (Some "UC1") 0; ApiSearchList (Some "UC1") 1;
              Stdout "Found 3 videos."; ApiVideosList "a"]) ∧
  ApiVideosList "b" ∉ trace (main w (Some "UC1") fresh).2.
Proof.
  split; [by vm_compute|].
  intros Hin. apply list_elem_of_In in Hin. vm_compute in Hin.
  intuition discriminate.
Qed.

Lemma per_video_remote_error_aborts_witness :
  let e := Exn HttpError "<HttpError 403 quotaExceeded>" in
  let w := with_captions_list (λ _, inl e) demo_world in
  ∃ evs,
    process_video w "b" 2 fresh = (Raise e, State ∅ ([] ++ evs)) ∧
    for_each_video w [(2, "b"); (3, "c")] fresh =
      (Raise e, State ∅ ([] ++ evs)) ∧
    exit_status (for_each_video w [(2, "b"); (3, "c")] fresh).1 = 1 ∧
    Forall (λ ev, ev = ApiVideosList "b" ∨ ev = ApiCaptionsList "b" ∨
                  ∃ title, ev = Stdout ("Processing video: " +:+ title)) evs.
Proof.
  intros e w.
  refine (per_video_remote_error_aborts w 2 "b" [(3, "c")] fresh e _).
  right. exists (VideosResponse (Some [VideoItem "Title of b"])),
                (VideoItem "Title of b").
  split_and!; reflexivity.
Defined.

(** ** Failed transcriptions *)

Lemma transcribe_audio_keeps_files (w : world) path st :
  fs (transcribe_audio w path st).2 = fs st.
Proof.
  destruct (suffix_supported path) eqn:Hsup.
  - destruct (transcribe_audio_supported_cases w path st Hsup)
      as [[_ ->]|(f & _ & Hf)]; [done|].
    simpl in Hf. destruct (groq_transcriptions w f) as [?|response].
    + by rewrite Hf.
    + case_bool_decide; [destruct (json_text response)|]; by rewrite Hf.
  - by rewrite transcribe_audio_unsupported.
Qed.

Lemma download_audio_some (w : world) video_id index st path st2 :
  download_audio w video_id index st = (Ok (Some path), st2) →
  path = audio_file_path index ∧ is_Some (fs st2 !! audio_file_path index).
Proof.
  unfold download_audio, ydl_download. run.
  case_bool_decide as Hc; [by intros [= <- <-]|].
  destruct (yt_dlp w _ _) as [e|audio]; simpl; [done|].
  intros [= <- <-]. split; [done|]. simpl.
  fold (audio_file_path index). rewrite lookup_insert_eq. by eexists.
Qed.

(** [transcribe_audio] raises its own "Transcription failed" exception
    exactly when the request went out and came back with a status other
    than 200, and the message carries the body of that response. *)
Lemma transcribe_audio_failed_iff (w : world) path st body :
  (transcribe_audio w path st).1 =
    Raise (Exn PlainException ("Transcription failed: " +:+ body)) ↔
  suffix_supported path = true ∧
  ∃ f response,
    fs st !! path = Some f ∧ groq_transcriptions w f = inr response ∧
    status_code response ≠ 200 ∧ text response = body.
Proof.
  destruct (suffix_supported path) eqn:Hsup.
  2:{ rewrite transcribe_audio_unsupported by done. simpl.
      split; [done|]. by intros [? _]. }
  destruct (transcribe_audio_supported_cases w path st Hsup)
    as [[Hnone ->]|(f & Hsome & Hf)]; simpl.
  { split; [done|]. intros (_ & f & ? & Hf & _). by rewrite Hnone in Hf. }
  simpl in Hf. rewrite Hsome.
  destruct (groq_transcriptions w f) as [msg|response] eqn:Hg.
  { rewrite Hf. simpl. split; [done|].
    intros (_ & ? & ? & ? & ? & _). simplify_eq. congruence. }
  case_bool_decide as Hstatus.
  { assert ((transcribe_audio w path st).1 ≠
            Raise (Exn PlainException ("Transcription failed: " +:+ body))).
    { destruct (json_text response); by rewrite Hf. }
    split; [done|]. intros (_ & ? & ? & ? & ? & ? & _). simplify_eq.
    congruence. }
  rewrite Hf. simpl. split.
  - intros [= Hbody]. split; [done|]. exists f, response.
    split_and!; [done..|].
    exact Hbody.
  - intros (_ & ? & ? & ? & ? & _ & <-). simplify_eq. congruence.
Qed.

Lemma after_gates_transcription_error (w : world) video_id index st path st2
    e st3 :
  download_audio w video_id index st = (Ok (Some path), st2) →
  transcribe_audio w path st2 = (Raise e, st3) →
  after_gates w video_id index st =
    (Ok tt,
     State (fs st3)
       (trace st3 ++
        [Stdout ("Transcription failed for " +:+ path +:+ ": " +:+ exn_str e)])).
Proof.
  intros Hdl Htr. unfold after_gates. unfold bind at 1. rewrite Hdl.
  unfold bind at 1. unfold try_except. unfold bind at 1. rewrite Htr.
  by run.
Qed.

(** C9.  [transcribe_audio] raises "Transcription failed: <body>" exactly
    when its request went out and the speech-to-text service answered
    with a status other than 200, <body> being the text of that answer;
    once the gates are passed and the audio is there the request always
    goes out, so it is exactly when the answer is not a 200.  Whatever [transcribe_audio]
    raises, [process_video] catches it, prints one line and returns: no
    chat completion, no write, the audio file is still there, and the
    loop goes on with the next video. *)
Theorem transcription_failure_skips_video (w : world) (video_id : string)
    (index : nat) (st : state) (response : videos_response)
    (details : video_item) (captions : captions_response)
    (path : string) (st2 : state) :
  videos_list w video_id = inr response →
  head (get_items (vr_items response)) = Some details →
  fs st !! file_path index = None →
  captions_list w video_id = inr captions →
  has_manual_track (get_items (cr_items captions)) = false →
  download_audio w video_id index
    (gates_passed video_id (snippet_title details) st) = (Ok (Some path), st2) →
  (∀ any_path any_st body,
     (transcribe_audio w any_path any_st).1 =
       Raise (Exn PlainException ("Transcription failed: " +:+ body)) ↔
     suffix_supported any_path = true ∧
     ∃ f answer,
       fs any_st !! any_path = Some f ∧ groq_transcriptions w f = inr answer ∧
       status_code answer ≠ 200 ∧ text answer = body) ∧
  (∀ body,
     (transcribe_audio w path st2).1 =
       Raise (Exn PlainException ("Transcription failed: " +:+ body)) ↔
     ∃ f answer,
       fs st2 !! path = Some f ∧ groq_transcriptions w f = inr answer ∧
       status_code answer ≠ 200 ∧ text answer = body) ∧
  (∀ e st3,
     transcribe_audio w path st2 = (Raise e, st3) →
     let line :=
       Stdout ("Transcription failed for " +:+ path +:+ ": " +:+ exn_str e) in
     let st4 := State (fs st2) (trace st3 ++ [line]) in
     process_video w video_id index st = (Ok tt, st4) ∧
     is_Some (fs st4 !! audio_file_path index) ∧
     fs st4 !! file_path index = None ∧
     (∀ prompt, ChatCompletion prompt ∉ drop (length (trace st2)) (trace st4)) ∧
     (∀ rest,
        for_each_video w ((index, video_id) :: rest) st =
          for_each_video w rest st4)).
Proof.
  intros Hv Hd Hout Hcap Hmanual Hdl.
  destruct (download_audio_some _ _ _ _ _ _ Hdl) as [-> Haudio].
  pose proof (audio_file_path_supported index) as Hsup.
  split; [intros; apply transcribe_audio_failed_iff|].
  split.
  { intros body. rewrite transcribe_audio_failed_iff.
    split; [by intros [_ ?]|by intros ?]. }
  intros e st3 Htr line st4.
  assert (fs st3 = fs st2) as Hfs.
  { by rewrite <- (transcribe_audio_keeps_files w (audio_file_path index) st2),
      Htr. }
  assert (process_video w video_id index st = (Ok tt, st4)) as Hpv.
  { rewrite (process_video_after_gates _ _ _ _ _ _ Hv Hd Hout _ Hcap Hmanual).
    rewrite (after_gates_transcription_error _ _ _ _ _ _ _ _ Hdl Htr).
    unfold st4, line. by rewrite Hfs. }
  split_and!; [done|done| | |].
  - simpl.
    assert (fs st2 !! file_path index =
            fs (gates_passed video_id (snippet_title details) st)
              !! file_path index) as ->; [|done].
    revert Hdl. unfold download_audio, ydl_download. run.
    case_bool_decide; [by intros [= <-]|].
    destruct (yt_dlp w _ _); simpl; [done|]. intros [= <-]. simpl.
    fold (audio_file_path index).
    apply lookup_insert_ne, audio_file_path_ne_file_path.
  - intros prompt Hin. simpl in Hin.
    destruct (transcribe_audio_supported_cases w _ st2 Hsup)
      as [[_ Heq]|(f & _ & Hf)].
    + rewrite Heq in Htr. simplify_eq.
      rewrite drop_app_length in Hin. by apply list_elem_of_singleton in Hin.
    + simpl in Hf.
      assert (trace st3 = trace st2 ++ [PostTranscription f]) as Htrace.
      { destruct (groq_transcriptions w f) as [?|answer].
        - rewrite Hf in Htr. by simplify_eq.
        - case_bool_decide; [destruct (json_text answer)|];
            rewrite Hf in Htr; by simplify_eq. }
      rewrite Htrace, <- app_assoc, drop_app_length in Hin.
      apply elem_of_cons in Hin as [?|Hin]; [done|].
      by apply list_elem_of_singleton in Hin.
  - intros rest. by rewrite for_each_video_cons, Hpv.
Qed.

Lemma transcription_failure_skips_video_witness :
  let w := with_groq_transcriptions
             (λ _, inr (HttpResponse 500 "upstream timeout" None "")) demo_world in
  let st2 :=
    State {[ audio_file_path 2 := "mp3 of https://www.youtube.com/watch?v=b" ]}
      [ApiVideosList "b"; Stdout "Processing video: Title of b";
       ApiCaptionsList "b";
       YtDlpDownload "https://www.youtube.com/watch?v=b" "audio_files/2"] in
  (transcribe_audio w (audio_file_path 2) st2).1 =
    Raise (Exn PlainException "Transcription failed: upstream timeout") ∧
  ∃ st4,
    process_video w "b" 2 fresh = (Ok tt, st4) ∧
    is_Some (fs st4 !! audio_file_path 2) ∧
    fs st4 !! file_path 2 = None ∧
    for_each_video w [(2, "b"); (3, "c")] fresh = for_each_video w [(3, "c")] st4.
Proof.
  intros w st2.
  destruct (transcription_failure_skips_video w "b" 2 fresh
              (VideosResponse (Some [VideoItem "Title of b"]))
              (VideoItem "Title of b") (CaptionsResponse None)
              (audio_file_path 2) st2
              eq_refl eq_refl eq_refl eq_refl eq_refl
              ltac:(vm_compute; reflexivity)) as (_ & Hiff & Hskip).
  split.
  - apply (Hiff "upstream timeout").
    exists "mp3 of https://www.youtube.com/watch?v=b",
           (HttpResponse 500 "upstream timeout" None "").
    split_and!; [by vm_compute|done|by vm_compute|done].
  - destruct (Hskip (Exn PlainException "Transcription failed: upstream timeout")
                (State (fs st2)
                   (trace st2 ++
                    [PostTranscription "mp3 of https://www.youtube.com/watch?v=b"]))
                ltac:(vm_compute; reflexivity))
      as (Hpv & Haudio & Hout & _ & Hnext).
    eexists. split_and!; [exact Hpv|exact Haudio|exact Hout|apply Hnext].
Defined.

(** ** Each video works on its own two files *)

Section Locality.

Variable paths : gset string.

Lemma local_ext {A} (m m' : M A) :
  (∀ st, m st = m' st) → local_to paths m' → local_to paths m.
Proof.
  intros Hext Hm st1 st2 Hag. rewrite !Hext. by apply Hm.
Qed.

Lemma local_ret {A} (a : A) : local_to paths (ret a).
Proof.
  intros st1 st2 Hag. exists (Ok a), [], (fs st1), (fs st2).
  unfold ret. rewrite !app_nil_r, !state_eta. done.
Qed.

Lemma local_raise {A} e : local_to paths (@raise A e).
Proof.
  intros st1 st2 Hag. exists (Raise e), [], (fs st1), (fs st2).
  unfold raise. rewrite !app_nil_r, !state_eta. done.
Qed.

Lemma local_emit ev : local_to paths (emit ev).
Proof. intros st1 st2 Hag. by exists (Ok tt), [ev], (fs st1), (fs st2). Qed.

Lemma local_bind {A B} (m : M A) (k : A → M B) :
  local_to paths m → (∀ a, local_to paths (k a)) → local_to paths (bind m k).
Proof.
  intros Hm Hk st1 st2 Hag.
  destruct (Hm st1 st2 Hag) as (r & evs & g1 & g2 & E1 & E2 & Hin & Hout).
  unfold bind. rewrite E1, E2.
  destruct r as [a|e|c].
  - destruct (Hk a (State g1 (trace st1 ++ evs)) (State g2 (trace st2 ++ evs))
                Hin) as (r' & evs' & h1 & h2 & F1 & F2 & Hin' & Hout').
    exists r', (evs ++ evs'), h1, h2. rewrite F1, F2. simpl.
    rewrite !app_assoc. split_and!; [done..|].
    intros p Hp. destruct (Hout p Hp) as [<- <-]. by apply Hout'.
  - by exists (Raise e), evs, g1, g2.
  - by exists (Exit c), evs, g1, g2.
Qed.

Lemma local_try_except {A} (m : M A) (h : exn → M A) :
  local_to paths m → (∀ e, local_to paths (h e)) →
  local_to paths (try_except m h).
Proof.
  intros Hm Hh st1 st2 Hag.
  destruct (Hm st1 st2 Hag) as (r & evs & g1 & g2 & E1 & E2 & Hin & Hout).
  unfold try_except. rewrite E1, E2.
  destruct r as [a|e|c].
  - by exists (Ok a), evs, g1, g2.
  - destruct (Hh e (State g1 (trace st1 ++ evs)) (State g2 (trace st2 ++ evs))
                Hin) as (r' & evs' & h1 & h2 & F1 & F2 & Hin' & Hout').
    exists r', (evs ++ evs'), h1, h2. rewrite F1, F2. simpl.
    rewrite !app_assoc. split_and!; [done..|].
    intros p Hp. destruct (Hout p Hp) as [<- <-]. by apply Hout'.
  - by exists (Exit c), evs, g1, g2.
Qed.

Lemma local_call {A} ev (answer : exn + A) : local_to paths (call ev answer).
Proof.
  unfold call. apply local_bind; [apply local_emit|].
  intros _. destruct answer; [apply local_raise|apply local_ret].
Qed.

Lemma local_os_path_exists path :
  path ∈ paths → local_to paths (os_path_exists path).
Proof.
  intros Hp st1 st2 Hag.
  exists (Ok (bool_decide (is_Some (fs st1 !! path)))), [], (fs st1), (fs st2).
  unfold os_path_exists. rewrite !app_nil_r, !state_eta, (Hag path Hp). done.
Qed.

Lemma local_write_file path content :
  path ∈ paths → local_to paths (write_file path content).
Proof.
  intros Hp st1 st2 Hag.
  exists (Ok tt), [], (<[path := content]> (fs st1)),
    (<[path := content]> (fs st2)).
  unfold write_file. rewrite !app_nil_r. split_and!; [done..| |].
  - intros p Hin. rewrite !lookup_insert. case_decide; [done|by apply Hag].
  - intros p Hnotin.
    rewrite !lookup_insert_ne; [done|intros ->; done..].
Qed.

Lemma local_open_rb path : path ∈ paths → local_to paths (open_rb path).
Proof.
  intros Hp st1 st2 Hag. unfold open_rb. rewrite <- (Hag path Hp).
  destruct (fs st1 !! path) as [bytes|].
  - exists (Ok bytes), [], (fs st1), (fs st2).
    by rewrite !app_nil_r, !state_eta.
  - eexists (Raise _), [], (fs st1), (fs st2).
    by rewrite !app_nil_r, !state_eta.
Qed.

End Locality.

Create HintDb local discriminated.

#[local] Hint Resolve local_ret local_raise local_emit local_call : local.
#[local] Hint Resolve local_os_path_exists local_write_file local_open_rb : local.

Section VideoLocality.

Variable w : world.
Variables (video_id : string) (index : nat).

Lemma audio_in_paths : audio_file_path index ∈ paths_of index.
Proof. unfold paths_of. apply elem_of_union_l. by apply elem_of_singleton. Qed.

Lemma output_in_paths : file_path index ∈ paths_of index.
Proof. unfold paths_of. apply elem_of_union_r. by apply elem_of_singleton. Qed.

Ltac local_step :=
  first
    [ apply local_bind; [|intros ?]
    | apply local_try_except; [|intros ?]
    | apply local_os_path_exists
    | apply local_write_file
    | apply local_open_rb
    | apply audio_in_paths
    | apply output_in_paths
    | solve [auto with local]
    | case_match ].

Lemma local_download_audio :
  local_to (paths_of index) (download_audio w video_id index).
Proof.
  unfold download_audio, ydl_download, print.
  fold (audio_file_path index). repeat local_step.
Qed.

Lemma local_transcribe_audio :
  local_to (paths_of index) (transcribe_audio w (audio_file_path index)).
Proof.
  unfold transcribe_audio, requests_post. repeat local_step.
Qed.

(** The path that comes back from [download_audio] is the one of the
    index, so the rest of the pipeline can be read with it. *)
Lemma bind_download_audio {B} (k : option string → M B) st :
  bind (download_audio w video_id index) k st =
  bind (download_audio w video_id index)
    (λ audio, k (match audio with
                 | Some _ => Some (audio_file_path index)
                 | None => None
                 end)) st.
Proof.
  unfold bind.
  destruct (download_audio w video_id index st) as [[[path|]|e|c] st2] eqn:Hdl;
    try done.
  by destruct (download_audio_some _ _ _ _ _ _ Hdl) as [-> _].
Qed.

Lemma local_after_gates :
  local_to (paths_of index) (after_gates w video_id index).
Proof.
  apply (local_ext _ _ _ (bind_download_audio _)).
  apply local_bind; [apply local_download_audio|].
  intros [path|]; [|apply local_emit].
  unfold format_transcription, query_groq, open_w_write, print.
  apply local_bind.
  { apply local_try_except; [|intros e; repeat local_step].
    apply local_bind; [apply local_transcribe_audio|intros ?; apply local_ret]. }
  intros [transcription|]; repeat local_step.
Qed.

Ltac same_files :=
  eexists _, _, _, _;
  split_and!; [reflexivity|reflexivity|assumption|by intros].

Lemma local_process_video :
  local_to (paths_of index) (process_video w video_id index).
Proof.
  intros st1 st2 Hag.
  pose proof (Hag _ output_in_paths) as Hout.
  destruct (videos_list w video_id) as [e|response] eqn:Hv.
  { rewrite !(process_video_details_error _ _ _ _ _ Hv).
    same_files. }
  destruct (head (get_items (vr_items response))) as [details|] eqn:Hd.
  2:{ rewrite !(process_video_not_found _ _ _ _ _ Hv Hd).
      same_files. }
  destruct (fs st1 !! file_path index) as [old|] eqn:Hout1.
  { rewrite !(process_video_output_exists _ _ _ _ _ _ Hv Hd)
      by (rewrite <- ?Hout, ?Hout1; by eexists).
    same_files. }
  assert (fs st2 !! file_path index = None) as Hout2 by by rewrite <- Hout.
  destruct (captions_list w video_id) as [e|captions] eqn:Hcap.
  { rewrite (process_video_captions_error _ _ _ st1 _ _ Hv Hd Hout1 _ Hcap).
    rewrite (process_video_captions_error _ _ _ st2 _ _ Hv Hd Hout2 _ Hcap).
    same_files. }
  destruct (has_manual_track (get_items (cr_items captions))) eqn:Hmanual.
  { rewrite (process_video_manual_caption _ _ _ st1 _ _ Hv Hd Hout1 _ Hcap Hmanual).
    rewrite (process_video_manual_caption _ _ _ st2 _ _ Hv Hd Hout2 _ Hcap Hmanual).
    unfold gates_passed. simpl. rewrite <- !app_assoc.
    same_files. }
  rewrite (process_video_after_gates _ _ _ st1 _ _ Hv Hd Hout1 _ Hcap Hmanual).
  rewrite (process_video_after_gates _ _ _ st2 _ _ Hv Hd Hout2 _ Hcap Hmanual).
  destruct (local_after_gates
              (gates_passed video_id (snippet_title details) st1)
              (gates_passed video_id (snippet_title details) st2) Hag)
    as (r & evs & g1 & g2 & E1 & E2 & Hin & Hframe).
  rewrite E1, E2. unfold gates_passed. simpl. rewrite <- !app_assoc.
  by eexists _, _, _, _.
Qed.

End VideoLocality.

(** ** What can leave [process_video] *)

Section Escapes.

Variable w : world.
Variables (video_id : string) (index : nat).

(** [download_audio] turns every failure of yt-dlp into [None]. *)
Lemma download_audio_returns st :
  ∃ audio st', download_audio w video_id index st = (Ok audio, st').
Proof.
  unfold download_audio, ydl_download. run.
  case_bool_decide; [by eexists _, _|].
  destruct (yt_dlp w _ _); simpl; by eexists _, _.
Qed.

(** The [try] around [transcribe_audio] lets nothing through. *)
Lemma try_transcribe_returns path (h : exn → M (option string)) st :
  (∀ e st', ∃ st'', h e st' = (Ok None, st'')) →
  ∃ t st',
    try_except (t <- transcribe_audio w path ;; ret (Some t)) h st
      = (Ok t, st').
Proof.
  intros Hh. unfold try_except, bind, ret.
  destruct (transcribe_audio w path st) as [[t|e|c] st'] eqn:E.
  - by eexists _, _.
  - destruct (Hh e st') as [st'' ->]. by eexists _, _.
  - exfalso. revert E.
    unfold transcribe_audio, open_rb, requests_post. run.
    repeat case_match; by simplify_eq/=.
Qed.

(** Neither does the [try] around the final write. *)
Lemma try_write_returns content st :
  ∃ st',
    try_except
      (open_w_write w (file_path index) content ;;;
       print ("Saved edited transcription to " +:+ file_path index))
      (λ e,
        print ("Failed to write transcription to "
               +:+ file_path index +:+ ": " +:+ exn_str e)) st
      = (Ok tt, st').
Proof.
  unfold open_w_write. run.
  destruct (open_w_error w (file_path index)); simpl; [by eexists|].
  destruct (write_error w (file_path index) content) as [[e flushed]|]; simpl;
    by eexists.
Qed.

Lemma after_gates_escapes st :
  escapes w video_id (after_gates w video_id index st).1.
Proof.
  unfold after_gates. unfold bind at 1.
  destruct (download_audio_returns st) as ([path|] & st1 & ->); [|done].
  unfold bind at 1.
  edestruct (try_transcribe_returns path) as ([t|] & st2 & ->);
    [intros e st'; by eexists|..|done].
  unfold bind at 1, format_transcription, query_groq, call, emit.
  unfold bind at 1. simpl.
  destruct (groq_chat w (format_prompt t)) as [e|formatted] eqn:Hchat; simpl.
  { right. right. by eexists. }
  by destruct (try_write_returns formatted
                 (State (fs st2)
                    (trace st2 ++ [ChatCompletion (format_prompt t)])))
    as [st3 ->].
Qed.

Lemma process_video_escapes st :
  escapes w video_id (process_video w video_id index st).1.
Proof.
  destruct (videos_list w video_id) as [e|response] eqn:Hv.
  { rewrite (process_video_details_error _ _ _ _ _ Hv). by left. }
  destruct (head (get_items (vr_items response))) as [details|] eqn:Hd.
  2:{ by rewrite (process_video_not_found _ _ _ _ _ Hv Hd). }
  destruct (fs st !! file_path index) as [old|] eqn:Hout.
  { by rewrite (process_video_output_exists _ _ _ _ _ _ Hv Hd)
      by (by rewrite Hout). }
  destruct (captions_list w video_id) as [e|captions] eqn:Hcap.
  { rewrite (process_video_captions_error _ _ _ _ _ _ Hv Hd Hout _ Hcap).
    right. by left. }
  destruct (has_manual_track (get_items (cr_items captions))) eqn:Hmanual.
  { by rewrite (process_video_manual_caption _ _ _ _ _ _ Hv Hd Hout _ Hcap
                  Hmanual). }
  rewrite (process_video_after_gates _ _ _ _ _ _ Hv Hd Hout _ Hcap Hmanual).
  apply after_gates_escapes.
Qed.

End Escapes.

(** ** The loop of [main], video by video *)

Section Batch.

Variable w : world.

Lemma paths_disjoint i j p : i ≠ j → p ∈ paths_of i → p ∉ paths_of j.
Proof.
  unfold paths_of. rewrite !elem_of_union, !elem_of_singleton.
  intros Hne [-> | ->] [H|H].
  - by apply audio_file_path_inj in H.
  - by apply audio_file_path_ne_file_path in H.
  - symmetry in H. by apply audio_file_path_ne_file_path in H.
  - by apply file_path_inj in H.
Qed.

(** Processing a video from any state whose two files are those of
    [files] goes as it goes from [files] alone. *)
Lemma process_video_from video_id index files st :
  (∀ p, p ∈ paths_of index → fs st !! p = files !! p) →
  ∃ files',
    process_video w video_id index st =
      ((video_run w (index, video_id) files).1,
       State files' (trace st ++ (video_run w (index, video_id) files).2)) ∧
    (∀ p, p ∉ paths_of index → files' !! p = fs st !! p).
Proof.
  intros Hag.
  destruct (local_process_video w video_id index st (State files []) Hag)
    as (r & evs & g1 & g2 & E1 & E2 & _ & Hframe).
  exists g1. unfold video_run. simpl. rewrite E1, E2. simpl.
  split; [done|]. intros p Hp. by apply Hframe.
Qed.

Lemma process_video_trace_frame video_id index st :
  process_video w video_id index st =
    let '(r, st') := process_video w video_id index (State (fs st) []) in
    (r, State (fs st') (trace st ++ trace st')).
Proof.
  destruct (local_process_video w video_id index st (State (fs st) []))
    as (r & evs & g1 & g2 & E1 & E2 & Hin & Hframe); [done|].
  rewrite E1, E2. simpl. do 2 f_equal.
  apply map_eq. intros p.
  destruct (decide (p ∈ paths_of index)) as [Hp|Hp]; [by apply Hin|].
  destruct (Hframe p Hp) as [-> ->]. done.
Qed.

Lemma for_each_video_trace indexed st :
  trace (for_each_video w indexed st).2 =
    trace st ++ concat (batch_runs w indexed (fs st)).*2.
Proof.
  revert st. induction indexed as [|[index video_id] rest IH]; intros st.
  { simpl. by rewrite app_nil_r. }
  rewrite for_each_video_cons, process_video_trace_frame. simpl.
  destruct (process_video w video_id index (State (fs st) []))
    as [[[]|e|c] st'] eqn:E; simpl.
  - rewrite IH. simpl. by rewrite app_assoc.
  - by rewrite app_nil_r.
  - by rewrite app_nil_r.
Qed.

(** As long as the videos before it return, the k-th video of the loop
    is reached, and it runs as it would alone from the initial files. *)
Lemma batch_runs_lookup indexed files0 files k index video_id :
  NoDup indexed.*1 →
  (∀ i v p, (i, v) ∈ indexed → p ∈ paths_of i → files !! p = files0 !! p) →
  indexed !! k = Some (index, video_id) →
  (∀ j i v, j < k → indexed !! j = Some (i, v) →
            (video_run w (i, v) files0).1 = Ok tt) →
  batch_runs w indexed files !! k = Some (video_run w (index, video_id) files0).
Proof.
  revert files k.
  induction indexed as [|[i0 v0] rest IH]; intros files k Hnd Hag Hk Hbefore;
    [done|].
  apply NoDup_cons in Hnd as [Hfresh Hnd].
  destruct (process_video_from v0 i0 files0 (State files []))
    as (files' & Hrun & Hframe).
  { intros p Hp. simpl. apply (Hag i0 v0); [by left|done]. }
  simpl. rewrite Hrun. simpl.
  destruct k as [|k]; simpl in *.
  { injection Hk as -> ->. by destruct (video_run w (index, video_id) files0). }
  rewrite (Hbefore 0 i0 v0) by (done || lia).
  apply IH; [done| |done|].
  - intros i v p Hin Hp.
    assert (i ≠ i0) as Hne.
    { intros ->. apply Hfresh. apply list_elem_of_fmap. by exists (i0, v). }
    rewrite Hframe by (by apply (paths_disjoint i i0)).
    simpl. apply (Hag i v); [by right|done].
  - intros j i v Hj Hlook. apply (Hbefore (S j) i v); [lia|done].
Qed.

End Batch.

Section Loop.

Variable w : world.

Lemma runs_trace_snoc files indexed iv :
  runs_trace w files (indexed ++ [iv])
    = runs_trace w files indexed ++ (video_run w iv files).2.
Proof.
  unfold runs_trace. rewrite fmap_app, concat_app. simpl.
  by rewrite app_nil_r.
Qed.

(** As long as the first k videos return when run alone from [files0],
    the loop gets to the videos after them, having done what these k
    videos do alone, and the files of the videos to come are as in
    [files0]. *)
Lemma loop_reaches indexed files0 st k :
  NoDup indexed.*1 →
  (∀ i v p, (i, v) ∈ indexed → p ∈ paths_of i → fs st !! p = files0 !! p) →
  k ≤ length indexed →
  (∀ j i v, j < k → indexed !! j = Some (i, v) →
            (video_run w (i, v) files0).1 = Ok tt) →
  ∃ st_k,
    for_each_video w indexed st = for_each_video w (drop k indexed) st_k ∧
    trace st_k = trace st ++ runs_trace w files0 (take k indexed) ∧
    (∀ i v p, (i, v) ∈ drop k indexed → p ∈ paths_of i →
              fs st_k !! p = files0 !! p).
Proof.
  revert indexed st.
  induction k as [|k IH]; intros indexed st Hnd Hag Hlen Hbefore.
  { exists st. unfold runs_trace. simpl. by rewrite app_nil_r. }
  destruct indexed as [|[i0 v0] rest]; [simpl in Hlen; lia|].
  apply NoDup_cons in Hnd as [Hfresh Hnd].
  destruct (process_video_from w v0 i0 files0 st) as (files' & Hrun & Hframe).
  { intros p Hp. apply (Hag i0 v0); [by left|done]. }
  rewrite (Hbefore 0 i0 v0) in Hrun by (done || lia).
  destruct (IH rest
              (State files' (trace st ++ (video_run w (i0, v0) files0).2)))
    as (st_k & Hloop & Htrace & Hag_k); [done| | |..].
  - intros i v p Hin Hp. simpl.
    assert (i ≠ i0) as Hne.
    { intros ->. apply Hfresh. apply list_elem_of_fmap. by exists (i0, v). }
    rewrite Hframe by (by apply (paths_disjoint i i0)).
    apply (Hag i v); [by right|done].
  - simpl in Hlen. lia.
  - intros j i v Hj Hlook. apply (Hbefore (S j) i v); [lia|done].
  - exists st_k. rewrite for_each_video_cons, Hrun. simpl.
    split_and!; [done| |done].
    rewrite Htrace. unfold runs_trace. simpl. by rewrite <- app_assoc.
Qed.

(** The loop at the video of position k. *)
Lemma loop_at indexed files0 st k index video_id :
  NoDup indexed.*1 →
  (∀ i v p, (i, v) ∈ indexed → p ∈ paths_of i → fs st !! p = files0 !! p) →
  indexed !! k = Some (index, video_id) →
  (∀ j i v, j < k → indexed !! j = Some (i, v) →
            (video_run w (i, v) files0).1 = Ok tt) →
  let loop := for_each_video w indexed st in
  let alone := video_run w (index, video_id) files0 in
  let before := trace st ++ runs_trace w files0 (take k indexed) in
  (∃ after, trace loop.2 = before ++ alone.2 ++ after) ∧
  (∀ e, alone.1 = Raise e →
        loop.1 = Raise e ∧ trace loop.2 = before ++ alone.2) ∧
  (alone.1 = Ok tt → length indexed = S k →
   loop.1 = Ok tt ∧ trace loop.2 = before ++ alone.2).
Proof.
  intros Hnd Hag Hk Hbefore. simpl.
  destruct (loop_reaches indexed files0 st k Hnd Hag) as
    (st_k & Hloop & Htrace & Hag_k);
    [apply lookup_lt_Some in Hk; lia|done|].
  rewrite (drop_S _ _ _ Hk) in Hloop, Hag_k.
  destruct (process_video_from w video_id index files0 st_k)
    as (files' & Hrun & _).
  { intros p Hp. apply (Hag_k index video_id); [by left|done]. }
  rewrite Hloop, for_each_video_cons, Hrun, <- Htrace.
  destruct (video_run w (index, video_id) files0) as [[[]|e|c] evs] eqn:Halone;
    simpl.
  - split_and!; [|done|].
    + rewrite for_each_video_trace. simpl. rewrite <- app_assoc. by eexists.
    + intros _ Hlen. rewrite drop_ge by lia. done.
  - split_and!; [exists []; by rewrite app_nil_r| |done].
    by intros ? [= <-].
  - split_and!; [exists []; by rewrite app_nil_r|done|done].
Qed.

End Loop.

(** C2, as the code has it.  Processing a video either returns or lets
    through an exception of its details fetch, of its caption listing or
    of the chat completion; a missing video, a manual caption, a failed
    download, a failed transcription and a failed write all return.  As
    long as the videos before it return, the video at position k of the
    catalog is processed, under index k+1, right after what the earlier
    videos do, and what it does and how it ends are what they would be
    were it processed alone from the initial files.  When it returns the
    loop goes on with the next video, or ends normally if there is none;
    when it lets an exception through, the loop ends there with that
    exception and no later video is processed. *)
Theorem failure_isolation (w : world) (video_ids : list string)
    (files : gmap string string) (k : nat) (video_id : string) :
  video_ids !! k = Some video_id →
  (∀ j v, j < k → video_ids !! j = Some v →
          (video_run w (S j, v) files).1 = Ok tt) →
  let indexed := enumerate video_ids 1 in
  let loop := for_each_video w indexed (State files []) in
  let alone := video_run w (S k, video_id) files in
  let before := runs_trace w files (take k indexed) in
  batch_runs w indexed files !! k = Some alone ∧
  (∃ after, trace loop.2 = before ++ alone.2 ++ after) ∧
  (∀ e, alone.1 = Raise e →
        loop.1 = Raise e ∧ trace loop.2 = before ++ alone.2) ∧
  (alone.1 = Ok tt → ∀ next, video_ids !! S k = Some next →
   ∃ after,
     trace loop.2
       = before ++ alone.2 ++ (video_run w (S (S k), next) files).2 ++ after) ∧
  (alone.1 = Ok tt → length video_ids = S k →
   loop.1 = Ok tt ∧ trace loop.2 = before ++ alone.2) ∧
  (∀ index v st, escapes w v (process_video w v index st).1).
Proof.
  intros Hk Hbefore. simpl.
  assert (NoDup (enumerate video_ids 1).*1) as Hnd
    by (rewrite enumerate_fst; apply NoDup_seq).
  assert (∀ j i v, j ≤ k → enumerate video_ids 1 !! j = Some (i, v) →
                   i = S j ∧ video_ids !! j = Some v) as Hlook.
  { intros j i v Hj Hlook.
    destruct (video_ids !! j) as [v'|] eqn:Hv.
    - rewrite (enumerate_lookup _ 1 _ _ Hv) in Hlook. by injection Hlook as <- <-.
    - apply lookup_ge_None in Hv. apply lookup_lt_Some in Hlook.
      rewrite <- (length_fmap snd), enumerate_snd in Hlook. lia. }
  assert (∀ j i v, j < k → enumerate video_ids 1 !! j = Some (i, v) →
                   (video_run w (i, v) files).1 = Ok tt) as Hbefore'.
  { intros j i v Hj Hl. destruct (Hlook j i v) as [-> Hv]; [lia|done|].
    by apply Hbefore. }
  pose proof (enumerate_lookup _ 1 _ _ Hk) as Hk'. simpl in Hk'.
  assert (length (enumerate video_ids 1) = length video_ids) as Hlen.
  { by rewrite <- (length_fmap snd), enumerate_snd. }
  destruct (loop_at w (enumerate video_ids 1) files (State files []) k
              (S k) video_id Hnd) as (Hreach & Hstop & Hend); [done..|].
  simpl in Hreach, Hstop, Hend.
  split_and!.
  - by apply batch_runs_lookup.
  - exact Hreach.
  - exact Hstop.
  - intros Halone next Hnext.
    pose proof (enumerate_lookup _ 1 _ _ Hnext) as Hnext'. simpl in Hnext'.
    destruct (loop_at w (enumerate video_ids 1) files (State files []) (S k)
                (S (S k)) next Hnd) as ((after & Hafter) & _); [done..| |].
    { intros j i v Hj Hl.
      destruct (decide (j = k)) as [->|Hne].
      - rewrite Hk' in Hl. by injection Hl as <- <-.
      - apply (Hbefore' j); [lia|done]. }
    exists after. simpl in Hafter. rewrite Hafter.
    rewrite (take_S_r _ _ _ Hk'), runs_trace_snoc.
    by rewrite <- app_assoc.
  - intros Halone Hlast. apply Hend; [done|]. by rewrite Hlen.
  - intros. apply process_video_escapes.
Qed.

(** C2 as stated fails: when the chat completion raises while the second
    video is formatted, the exception leaves the loop and the third video
    is never looked at. *)
Lemma formatting_failure_stops_the_batch :
  let e := Exn APIError "rate_limit_exceeded" in
  let w := with_groq_chat (λ _, inl e) demo_world in
  (main w (Some "UC1") fresh).1 = Raise e ∧
  (ApiVideosList "c" ∉ trace (main w (Some "UC1") fresh).2) ∧
  length (batch_runs w (enumerate ["a"; "b"; "c"] 1) ∅) = 2.
Proof.
  split_and!; [by vm_compute| |by vm_compute].
  intros Hin. apply list_elem_of_In in Hin. vm_compute in Hin.
  intuition discriminate.
Qed.

Lemma failure_isolation_witness :
  let w := with_groq_transcriptions
             (λ _, inr (HttpResponse 500 "upstream timeout" None "")) demo_world in
  let loop := for_each_video w (enumerate ["a"; "b"; "c"] 1) fresh in
  batch_runs w (enumerate ["a"; "b"; "c"] 1) ∅ !! 2
    = Some (video_run w (3, "c") ∅) ∧
  (video_run w (2, "b") ∅).1 = Ok tt ∧
  (video_run w (3, "c") ∅).2 =
    [ApiVideosList "c"; Stdout "Video details not found for ID: c"] ∧
  loop.1 = Ok tt ∧
  trace loop.2 =
    runs_trace w ∅ (take 2 (enumerate ["a"; "b"; "c"] 1))
    ++ (video_run w (3, "c") ∅).2.
Proof.
  intros w loop.
  assert (∀ j v, j < 2 → ["a"; "b"; "c"] !! j = Some v →
                 (video_run w (S j, v) ∅).1 = Ok tt) as Hbefore.
  { intros [|[|j]] v Hj Hv; [| |lia]; injection Hv as <-; by vm_compute. }
  destruct (failure_isolation w ["a"; "b"; "c"] ∅ 2 "c" eq_refl Hbefore)
    as (Hrun & _ & _ & _ & Hend & _).
  destruct Hend as [Hok Htrace]; [by vm_compute|done|].
  split_and!; [exact Hrun|by vm_compute|by vm_compute|exact Hok|exact Htrace].
Defined.

(** * Further facts *)

(** ** The three ways [download_audio] goes *)

Lemma download_audio_hit (w : world) video_id index st :
  is_Some (fs st !! audio_file_path index) →
  download_audio w video_id index st =
    (Ok (Some (audio_file_path index)),
     State (fs st)
       (trace st ++
        [Stdout ("Audio file " +:+ audio_file_path index
                 +:+ " already exists. Skipping download.")])).
Proof.
  intros Hcached. unfold download_audio. run.
  by rewrite bool_decide_eq_true_2.
Qed.

Lemma download_audio_miss_ok (w : world) video_id index st audio :
  fs st !! audio_file_path index = None →
  yt_dlp w (watch_url video_id) (audio_file_basename index) = inr audio →
  download_audio w video_id index st =
    (Ok (Some (audio_file_path index)),
     State (<[audio_file_path index := audio]> (fs st))
       (trace st ++
        [YtDlpDownload (watch_url video_id) (audio_file_basename index)])).
Proof.
  intros Hmiss Hdl. unfold download_audio, ydl_download. run.
  rewrite bool_decide_eq_false_2 by (rewrite Hmiss; by intros [? ?]).
  by rewrite Hdl.
Qed.

Lemma download_audio_miss_error (w : world) video_id index st e :
  fs st !! audio_file_path index = None →
  yt_dlp w (watch_url video_id) (audio_file_basename index) = inl e →
  download_audio w video_id index st =
    (Ok None,
     State (fs st)
       (trace st ++
        [YtDlpDownload (watch_url video_id) (audio_file_basename index);
         Stdout ("Error downloading audio for video ID " +:+ video_id
                 +:+ ": " +:+ exn_str e)])).
Proof.
  intros Hmiss Hdl. unfold download_audio, ydl_download. run.
  rewrite bool_decide_eq_false_2 by (rewrite Hmiss; by intros [? ?]).
  rewrite Hdl. simpl. by rewrite <- app_assoc.
Qed.

(** ** [transcribe_audio] on a file that is there *)

Lemma transcribe_audio_readable (w : world) path st audio :
  suffix_supported path = true →
  fs st !! path = Some audio →
  transcribe_audio w path st =
    (match transcription_of w audio with
     | inl e => Raise e
     | inr t => Ok t
     end,
     State (fs st) (trace st ++ [PostTranscription audio])).
Proof.
  intros Hsup Hfile.
  destruct (transcribe_audio_supported_cases w path st Hsup)
    as [[Hnone _]|(f & Hsome & Hf)]; [congruence|].
  assert (f = audio) as -> by congruence.
  simpl in Hf. unfold transcription_of.
  destruct (groq_transcriptions w audio) as [msg|response]; [done|].
  case_bool_decide; [|done]. by destruct (json_text response).
Qed.

(** ** The pipeline after the download *)

Lemma after_gates_with_audio (w : world) video_id index st path st1 audio :
  download_audio w video_id index st = (Ok (Some path), st1) →
  fs st1 !! audio_file_path index = Some audio →
  after_gates w video_id index st =
    match transcription_of w audio with
    | inl e =>
        (Ok tt,
         State (fs st1)
           (trace st1 ++
            [PostTranscription audio;
             transcription_failed_line (audio_file_path index) e]))
    | inr t =>
        match groq_chat w (format_prompt t) with
        | inl e =>
            (Raise e,
             State (fs st1)
               (trace st1 ++
                [PostTranscription audio; ChatCompletion (format_prompt t)]))
        | inr formatted =>
            match open_w_error w (file_path index) with
            | Some msg =>
                (Ok tt,
                 State (fs st1)
                   (trace st1 ++
                    [PostTranscription audio; ChatCompletion (format_prompt t);
                     write_failed_line index msg]))
            | None =>
                match write_error w (file_path index) formatted with
                | Some (e, flushed) =>
                    (Ok tt,
                     State (<[file_path index := flushed]> (fs st1))
                       (trace st1 ++
                        [PostTranscription audio;
                         ChatCompletion (format_prompt t);
                         write_failed_line index (exn_str e)]))
                | None =>
                    (Ok tt,
                     State (<[file_path index := formatted]> (fs st1))
                       (trace st1 ++
                        [PostTranscription audio;
                         ChatCompletion (format_prompt t); saved_line index]))
                end
            end
        end
    end.
Proof.
  intros Hdl Haudio.
  destruct (download_audio_some _ _ _ _ _ _ Hdl) as [-> _].
  unfold after_gates. unfold bind at 1. rewrite Hdl.
  unfold bind at 1. unfold try_except. unfold bind at 1.
  rewrite (transcribe_audio_readable _ _ _ _
             (audio_file_path_supported index) Haudio).
  destruct (transcription_of w audio) as [e|t].
  { unfold transcription_failed_line. run. by rewrite <- app_assoc. }
  unfold format_transcription, query_groq, open_w_write,
    write_failed_line, saved_line. run.
  destruct (groq_chat w (format_prompt t)) as [e|formatted]; simpl.
  { by rewrite <- app_assoc. }
  destruct (open_w_error w (file_path index)) as [msg|]; simpl.
  { by rewrite <- !app_assoc. }
  destruct (write_error w (file_path index) formatted) as [[e flushed]|];
    simpl; by rewrite insert_insert_eq, <- !app_assoc.
Qed.

(** ** The catalog listing *)

Lemma search_calls_cons channel_id first n :
  search_calls channel_id first (S n) =
    ApiSearchList channel_id first :: search_calls channel_id (S first) n.
Proof. done. Qed.

Lemma get_video_ids_next_all channel_id pages first video_ids st :
  get_video_ids_next channel_id first (inr <$> pages) video_ids st =
    (Ok (video_ids ++ page_ids pages),
     State (fs st) (trace st ++ search_calls channel_id first (length pages))).
Proof.
  revert first video_ids st.
  induction pages as [|page pages IH]; intros first video_ids st; simpl.
  { unfold ret, page_ids, search_calls. simpl.
    by rewrite !app_nil_r, state_eta. }
  unfold bind at 1. unfold call, emit, bind, ret. simpl.
  rewrite IH. simpl. rewrite search_calls_cons.
  unfold page_ids. simpl. by rewrite <- !app_assoc.
Qed.

Lemma get_video_ids_next_error channel_id pages e rest first
    video_ids st :
  get_video_ids_next channel_id first ((inr <$> pages) ++ inl e :: rest)
      video_ids st =
    (Raise e,
     State (fs st)
       (trace st ++ search_calls channel_id first (S (length pages)))).
Proof.
  revert first video_ids st.
  induction pages as [|page pages IH]; intros first video_ids st; simpl.
  { by run. }
  unfold bind at 1. unfold call, emit, bind, ret. simpl.
  rewrite IH. simpl. rewrite (search_calls_cons _ first).
  by rewrite <- !app_assoc.
Qed.

Lemma get_video_ids_all_pages_eq (w : world) channel_id st pages :
  search_pages w channel_id = inr <$> pages →
  get_video_ids w channel_id st =
    (Ok (page_ids pages),
     State (fs st) (trace st ++ search_calls channel_id 0 (length pages))).
Proof.
  unfold search_pages. destruct pages as [|page pages]; [done|].
  simpl. intros [= Hfirst Hnext].
  unfold get_video_ids. unfold bind at 1. unfold call, emit, bind, ret.
  simpl. rewrite Hfirst, Hnext. simpl.
  rewrite get_video_ids_next_all. simpl.
  rewrite search_calls_cons. unfold page_ids. simpl.
  by rewrite <- !app_assoc.
Qed.

(** X1.  When every page of the search answers, [get_video_ids] returns
    the video ids of all the pages, in page order, after one search call
    per page; a page without an ["items"] key adds nothing.  No file is
    touched. *)
Theorem get_video_ids_all_pages (w : world) (channel_id : option string)
    (st : state) (pages : list search_page) :
  search_pages w channel_id = inr <$> pages →
  get_video_ids w channel_id st =
    (Ok (page_ids pages),
     State (fs st) (trace st ++ search_calls channel_id 0 (length pages))).
Proof. apply get_video_ids_all_pages_eq. Qed.

Lemma get_video_ids_all_pages_witness :
  get_video_ids demo_world (Some "UC1") fresh =
    (Ok ["a"; "b"; "c"],
     State ∅ [ApiSearchList (Some "UC1") 0; ApiSearchList (Some "UC1") 1]).
Proof.
  exact (get_video_ids_all_pages demo_world (Some "UC1") fresh
           [SearchPage (Some ["a"; "b"]); SearchPage (Some ["c"])] eq_refl).
Defined.

Lemma get_video_ids_first_error (w : world) channel_id st pages e rest :
  search_pages w channel_id = (inr <$> pages) ++ inl e :: rest →
  get_video_ids w channel_id st =
    (Raise e,
     State (fs st)
       (trace st ++ search_calls channel_id 0 (S (length pages)))).
Proof.
  unfold search_pages, get_video_ids.
  destruct pages as [|page pages]; simpl; intros [= Hfirst Hnext].
  - unfold bind at 1. unfold call, emit, bind, raise. simpl.
    by rewrite Hfirst.
  - unfold bind at 1. unfold call, emit, bind, ret. simpl.
    rewrite Hfirst, Hnext. simpl. rewrite get_video_ids_next_error. simpl.
    rewrite (search_calls_cons _ 0). by rewrite <- !app_assoc.
Qed.

(** X2.  When a page of the search raises, the ids of the pages before it
    are dropped and no video is processed.  An [HttpError] is printed and
    the program exits with status 1; any other exception is not handled
    and leaves [main] as it is.  Either way the trace holds the search
    calls up to the failing page and nothing about any video. *)
Theorem main_catalog_error (w : world) (channel_id : option string)
    (st : state) (pages : list search_page) (e : exn)
    (rest : list (exn + search_page)) :
  search_pages w channel_id = (inr <$> pages) ++ inl e :: rest →
  main w channel_id st =
    if decide (exn_class_of e = HttpError) then
      (Exit 1,
       State (fs st)
         (trace st ++ search_calls channel_id 0 (S (length pages)) ++
          [Stdout ("An HTTP error occurred: " +:+ exn_str e)]))
    else
      (Raise e,
       State (fs st)
         (trace st ++ search_calls channel_id 0 (S (length pages)))).
Proof.
  intros Hpages.
  pose proof (get_video_ids_first_error w channel_id st _ _ _ Hpages) as Hids.
  unfold main. unfold bind at 1. unfold try_except_HttpError.
  unfold bind at 1. rewrite Hids.
  destruct (decide (exn_class_of e = HttpError)); [|done].
  run. by rewrite <- app_assoc.
Qed.

Lemma main_catalog_error_witness :
  let e := Exn HttpError "<HttpError 400 invalid channel>" in
  let w := with_search (λ _, inr (SearchPage (Some ["a"]))) (λ _, [inl e])
             demo_world in
  main w None fresh =
    (Exit 1,
     State ∅
       [ApiSearchList None 0; ApiSearchList None 1;
        Stdout "An HTTP error occurred: <HttpError 400 invalid channel>"]).
Proof.
  intros e w.
  exact (main_catalog_error w None fresh [SearchPage (Some ["a"])] e []
           eq_refl).
Defined.

(** ** The artifact paths *)

(** X3.  Two different indices never share a file: their audio paths
    differ, their transcription paths differ, and no audio path is a
    transcription path. *)
Theorem artifact_paths_distinct (i j : nat) :
  i ≠ j →
  audio_file_path i ≠ audio_file_path j ∧
  file_path i ≠ file_path j ∧
  audio_file_path i ≠ file_path j ∧
  audio_file_path i ≠ file_path i ∧
  paths_of i ## paths_of j.
Proof.
  intros Hne. split_and!.
  - intros H. by apply audio_file_path_inj in H.
  - intros H. by apply file_path_inj in H.
  - apply audio_file_path_ne_file_path.
  - apply audio_file_path_ne_file_path.
  - apply elem_of_disjoint. intros p Hi Hj.
    by apply (paths_disjoint i j p).
Qed.

Lemma artifact_paths_distinct_witness :
  audio_file_path 9 ≠ audio_file_path 10 ∧
  file_path 9 ≠ file_path 10 ∧
  audio_file_path 9 ≠ file_path 10 ∧
  audio_file_path 9 ≠ file_path 9 ∧
  paths_of 9 ## paths_of 10.
Proof. apply (artifact_paths_distinct 9 10). lia. Defined.

(** ** More on [download_audio] *)

(** X4.  [download_audio] never raises.  It returns [None] exactly when
    the audio file is missing and yt-dlp raised, and then no file has
    changed; otherwise it returns the audio path of the index, the file
    is there afterwards, and no file that existed has changed. *)
Theorem download_audio_total (w : world) (video_id : string) (index : nat)
    (st : state) :
  ∃ audio st',
    download_audio w video_id index st = (Ok audio, st') ∧
    (audio = None ↔
     fs st !! audio_file_path index = None ∧
     ∃ e, yt_dlp w (watch_url video_id) (audio_file_basename index) = inl e) ∧
    (audio = None → fs st' = fs st) ∧
    (audio ≠ None →
     audio = Some (audio_file_path index) ∧
     is_Some (fs st' !! audio_file_path index) ∧
     fs st ⊆ fs st').
Proof.
  destruct (fs st !! audio_file_path index) as [cached|] eqn:Hfile.
  { eexists _, _. rewrite download_audio_hit by (by rewrite Hfile).
    split_and!; [done| |done|].
    - split; [done|]. by intros [? _].
    - intros _. simpl. by rewrite Hfile. }
  destruct (yt_dlp w (watch_url video_id) (audio_file_basename index))
    as [e|audio] eqn:Hdl.
  - eexists _, _. rewrite (download_audio_miss_error _ _ _ _ _ Hfile Hdl).
    split_and!; [done| |done|done].
    split; [|done]. intros _. split; [done|by exists e].
  - eexists _, _. rewrite (download_audio_miss_ok _ _ _ _ _ Hfile Hdl).
    split_and!; [done| |done|].
    + split; [done|]. by intros (_ & e & ?).
    + intros _. simpl. rewrite lookup_insert_eq.
      split_and!; [done|by eexists|by apply insert_subseteq].
Qed.

(** X5.  After a download that returned a path, a second download under
    the same index returns the same path for any video id, without
    calling yt-dlp and without changing a file. *)
Theorem download_audio_twice (w : world) (video_id other_id : string)
    (index : nat) (st st1 : state) (path : string) :
  download_audio w video_id index st = (Ok (Some path), st1) →
  download_audio w other_id index st1 =
    (Ok (Some path),
     State (fs st1)
       (trace st1 ++
        [Stdout ("Audio file " +:+ path
                 +:+ " already exists. Skipping download.")])).
Proof.
  intros Hdl.
  destruct (download_audio_some _ _ _ _ _ _ Hdl) as [-> Hfile].
  by apply download_audio_hit.
Qed.

Lemma download_audio_twice_witness :
  let st1 :=
    State {[ audio_file_path 2 := "mp3 of https://www.youtube.com/watch?v=b" ]}
      [YtDlpDownload "https://www.youtube.com/watch?v=b" "audio_files/2"] in
  download_audio demo_world "z" 2 st1 =
    (Ok (Some (audio_file_path 2)),
     State (fs st1)
       (trace st1 ++
        [Stdout ("Audio file " +:+ audio_file_path 2
                 +:+ " already exists. Skipping download.")])).
Proof.
  intros st1.
  assert (download_audio demo_world "b" 2 fresh =
            (Ok (Some (audio_file_path 2)), st1)) as Hdl
    by (vm_compute; reflexivity).
  exact (download_audio_twice demo_world "b" "z" 2 fresh st1 _ Hdl).
Defined.

(** ** More on [transcribe_audio] *)

Lemma transcribe_audio_no_file (w : world) path st :
  suffix_supported path = true →
  fs st !! path = None →
  transcribe_audio w path st =
    (Raise (Exn OSError
       ("[Errno 2] No such file or directory: " +:+ py_repr path)), st).
Proof.
  intros Hsup Hnone.
  destruct (transcribe_audio_supported_cases w path st Hsup)
    as [[_ ->]|(f & Hsome & _)]; [done|congruence].
Qed.

(** X6.  With a supported suffix and no file at the path,
    [transcribe_audio] raises the [OSError] of [open] and nothing is
    posted to the speech-to-text service. *)
Theorem transcribe_audio_missing_file (w : world) (path : string)
    (st : state) :
  suffix_supported path = true →
  fs st !! path = None →
  transcribe_audio w path st =
    (Raise (Exn OSError
       ("[Errno 2] No such file or directory: " +:+ py_repr path)), st).
Proof. apply transcribe_audio_no_file. Qed.

Lemma transcribe_audio_missing_file_witness :
  transcribe_audio demo_world "audio_files/5.mp3" fresh =
    (Raise (Exn OSError
       "[Errno 2] No such file or directory: 'audio_files/5.mp3'"), fresh).
Proof.
  exact (transcribe_audio_missing_file demo_world "audio_files/5.mp3" fresh
           eq_refl eq_refl).
Defined.

(** X7.  [transcribe_audio] never changes a file, and it posts at most
    once: either it adds nothing to the trace, or the path holds a file
    and it adds the one upload of that file's bytes. *)
Theorem transcribe_audio_effects (w : world) (path : string) (st : state) :
  let st' := (transcribe_audio w path st).2 in
  fs st' = fs st ∧
  (trace st' = trace st ∨
   ∃ audio, fs st !! path = Some audio ∧
            trace st' = trace st ++ [PostTranscription audio]).
Proof.
  simpl. split; [apply transcribe_audio_keeps_files|].
  destruct (suffix_supported path) eqn:Hsup.
  2:{ left. by rewrite transcribe_audio_unsupported. }
  destruct (fs st !! path) as [audio|] eqn:Hfile.
  - right. exists audio. split; [done|].
    by rewrite (transcribe_audio_readable _ _ _ _ Hsup Hfile).
  - left. by rewrite transcribe_audio_no_file.
Qed.

Lemma path_suffix_no_dot path :
  contains "." (path_name path) = false → path_suffix path = "".
Proof. intros H. unfold path_suffix. by rewrite (rfind_none _ _ H). Qed.

(** X8.  A path whose file name has no dot has no suffix, so
    [transcribe_audio] rejects it with its [ValueError] before opening
    anything. *)
Theorem transcribe_audio_no_extension (w : world) (path : string)
    (st : state) :
  contains "." (path_name path) = false →
  path_suffix path = "" ∧
  suffix_supported path = false ∧
  transcribe_audio w path st =
    (Raise (Exn ValueError
       ("Unsupported audio format for " +:+ path
        +:+ ". Supported formats: " +:+ audio_file_types_str w)), st).
Proof.
  intros Hdot. pose proof (path_suffix_no_dot _ Hdot) as Hsuffix.
  assert (suffix_supported path = false) as Hsup.
  { unfold suffix_supported. rewrite Hsuffix. by vm_compute. }
  split_and!; [done|done|by apply transcribe_audio_unsupported].
Qed.

Lemma transcribe_audio_no_extension_witness :
  path_suffix "audio.mp3/recording" = "" ∧
  suffix_supported "audio.mp3/recording" = false ∧
  transcribe_audio demo_world "audio.mp3/recording" fresh =
    (Raise (Exn ValueError
       ("Unsupported audio format for audio.mp3/recording"
        +:+ ". Supported formats: " +:+ audio_file_types_str demo_world)),
     fresh).
Proof.
  exact (transcribe_audio_no_extension demo_world "audio.mp3/recording" fresh
           eq_refl).
Defined.

(** ** A video that goes through *)

Lemma transcription_of_inr (w : world) audio t :
  transcription_of w audio = inr t ↔
  ∃ answer, groq_transcriptions w audio = inr answer ∧
            status_code answer = 200 ∧ json_text answer = Some t.
Proof.
  unfold transcription_of. split.
  - destruct (groq_transcriptions w audio) as [msg|answer]; [done|].
    case_bool_decide; [|done].
    destruct (json_text answer) as [t'|] eqn:Hjson; [|done].
    intros [= ->]. by exists answer.
  - intros (answer & -> & Hstatus & ->).
    by rewrite bool_decide_eq_true_2.
Qed.

Section Through.

Variable w : world.
Variables (video_id : string) (index : nat) (st : state).
Variables (response : videos_response) (details : video_item).
Variable captions : captions_response.
Variables (path : string) (st1 : state) (audio : string).
Variables (answer : http_response) (t formatted : string).

Hypothesis Hresponse : videos_list w video_id = inr response.
Hypothesis Hdetails : head (get_items (vr_items response)) = Some details.
Hypothesis Houtput : fs st !! file_path index = None.
Hypothesis Hcaptions : captions_list w video_id = inr captions.
Hypothesis Hmanual : has_manual_track (get_items (cr_items captions)) = false.
Hypothesis Hdownload :
  download_audio w video_id index
    (gates_passed video_id (snippet_title details) st) = (Ok (Some path), st1).
Hypothesis Haudio : fs st1 !! path = Some audio.
Hypothesis Hanswer : groq_transcriptions w audio = inr answer.
Hypothesis Hstatus : status_code answer = 200.
Hypothesis Htext : json_text answer = Some t.
Hypothesis Hchat : groq_chat w (format_prompt t) = inr formatted.

Lemma process_video_to_write :
  process_video w video_id index st =
    match open_w_error w (file_path index) with
    | Some msg =>
        (Ok tt,
         State (fs st1)
           (trace st1 ++
            [PostTranscription audio; ChatCompletion (format_prompt t);
             write_failed_line index msg]))
    | None =>
        match write_error w (file_path index) formatted with
        | Some (e, flushed) =>
            (Ok tt,
             State (<[file_path index := flushed]> (fs st1))
               (trace st1 ++
                [PostTranscription audio; ChatCompletion (format_prompt t);
                 write_failed_line index (exn_str e)]))
        | None =>
            (Ok tt,
             State (<[file_path index := formatted]> (fs st1))
               (trace st1 ++
                [PostTranscription audio; ChatCompletion (format_prompt t);
                 saved_line index]))
        end
    end.
Proof.
  rewrite (process_video_after_gates _ _ _ _ _ _ Hresponse Hdetails Houtput _
             Hcaptions Hmanual).
  destruct (download_audio_some _ _ _ _ _ _ Hdownload) as [Hpath _].
  rewrite Hpath in Haudio.
  rewrite (after_gates_with_audio _ _ _ _ _ _ _ Hdownload Haudio).
  assert (transcription_of w audio = inr t) as ->.
  { apply transcription_of_inr. by exists answer. }
  by rewrite Hchat.
Qed.

Lemma output_absent_after_download : fs st1 !! file_path index = None.
Proof.
  set (gs := gates_passed video_id (snippet_title details) st) in *.
  assert (fs gs !! file_path index = None) as Hout by done.
  destruct (fs gs !! audio_file_path index) as [cached|] eqn:Hfile.
  { rewrite (download_audio_hit w video_id index gs) in Hdownload
      by (by rewrite Hfile).
    by injection Hdownload as _ <-. }
  destruct (yt_dlp w (watch_url video_id) (audio_file_basename index))
    as [e|bytes] eqn:Hdl.
  - by rewrite (download_audio_miss_error _ _ _ gs _ Hfile Hdl) in Hdownload.
  - rewrite (download_audio_miss_ok _ _ _ gs _ Hfile Hdl) in Hdownload.
    injection Hdownload as _ <-. simpl.
    rewrite lookup_insert_ne; [done|apply audio_file_path_ne_file_path].
Qed.

End Through.

(** X9.  When the details are found, no output file exists, no manual
    caption is listed, the audio is obtained, the speech-to-text service
    answers 200 with a text, the chat model answers, the file can be
    opened and the write goes through, [process_video] posts the audio,
    asks for the formatting of that text, writes the answer of the chat
    model, unchanged, to [transcriptions/<index>.md], prints the "Saved"
    line and returns.  The audio file stays. *)
Theorem process_video_success (w : world) (video_id : string) (index : nat)
    (st : state) (response : videos_response) (details : video_item)
    (captions : captions_response) (path : string) (st1 : state)
    (audio : string) (answer : http_response) (t formatted : string) :
  videos_list w video_id = inr response →
  head (get_items (vr_items response)) = Some details →
  fs st !! file_path index = None →
  captions_list w video_id = inr captions →
  has_manual_track (get_items (cr_items captions)) = false →
  download_audio w video_id index
    (gates_passed video_id (snippet_title details) st) = (Ok (Some path), st1) →
  fs st1 !! path = Some audio →
  groq_transcriptions w audio = inr answer →
  status_code answer = 200 →
  json_text answer = Some t →
  groq_chat w (format_prompt t) = inr formatted →
  open_w_error w (file_path index) = None →
  write_error w (file_path index) formatted = None →
  let st' :=
    State (<[file_path index := formatted]> (fs st1))
      (trace st1 ++
       [PostTranscription audio; ChatCompletion (format_prompt t);
        saved_line index]) in
  process_video w video_id index st = (Ok tt, st') ∧
  fs st' !! file_path index = Some formatted ∧
  fs st' !! audio_file_path index = Some audio.
Proof.
  intros Hv Hd Hout Hcap Hman Hdl Haudio Hans Hstatus Htext Hchat Hopen
    Hwrite st'.
  rewrite (process_video_to_write _ _ _ _ _ _ _ _ _ _ _ _ _ Hv Hd Hout Hcap
             Hman Hdl Haudio Hans Hstatus Htext Hchat), Hopen, Hwrite.
  destruct (download_audio_some _ _ _ _ _ _ Hdl) as [-> _].
  split_and!; [done|apply lookup_insert_eq|].
  simpl. rewrite lookup_insert_ne; [done|].
  intros H. symmetry in H. by apply audio_file_path_ne_file_path in H.
Qed.

Lemma process_video_success_witness :
  ∃ st',
    process_video demo_world "b" 2 fresh = (Ok tt, st') ∧
    fs st' !! file_path 2 = Some "# Topic" ∧
    fs st' !! audio_file_path 2
      = Some "mp3 of https://www.youtube.com/watch?v=b".
Proof.
  eexists.
  refine (process_video_success demo_world "b" 2 fresh
            (VideosResponse (Some [VideoItem "Title of b"]))
            (VideoItem "Title of b") (CaptionsResponse None)
            (audio_file_path 2)
            (State (<[audio_file_path 2 :=
                        "mp3 of https://www.youtube.com/watch?v=b"]> ∅)
               [ApiVideosList "b"; Stdout "Processing video: Title of b";
                ApiCaptionsList "b";
                YtDlpDownload "https://www.youtube.com/watch?v=b"
                  "audio_files/2"])
            "mp3 of https://www.youtube.com/watch?v=b"
            (HttpResponse 200 "{}" (Some "hello") "") "hello" "# Topic"
            eq_refl eq_refl eq_refl eq_refl eq_refl _ _
            eq_refl eq_refl eq_refl eq_refl eq_refl eq_refl);
    vm_compute; reflexivity.
Defined.

(** X10.  When everything goes through up to the chat completion but the
    output file cannot be opened for writing, [process_video] prints the
    "Failed to write" line with the message of the error and returns:
    the formatted text is lost, no output file exists, and the audio file
    stays for a later run. *)
Theorem process_video_write_failure (w : world) (video_id : string)
    (index : nat) (st : state) (response : videos_response)
    (details : video_item) (captions : captions_response) (path : string)
    (st1 : state) (audio : string) (answer : http_response)
    (t formatted msg : string) :
  videos_list w video_id = inr response →
  head (get_items (vr_items response)) = Some details →
  fs st !! file_path index = None →
  captions_list w video_id = inr captions →
  has_manual_track (get_items (cr_items captions)) = false →
  download_audio w video_id index
    (gates_passed video_id (snippet_title details) st) = (Ok (Some path), st1) →
  fs st1 !! path = Some audio →
  groq_transcriptions w audio = inr answer →
  status_code answer = 200 →
  json_text answer = Some t →
  groq_chat w (format_prompt t) = inr formatted →
  open_w_error w (file_path index) = Some msg →
  process_video w video_id index st =
    (Ok tt,
     State (fs st1)
       (trace st1 ++
        [PostTranscription audio; ChatCompletion (format_prompt t);
         write_failed_line index msg])) ∧
  fs st1 !! file_path index = None ∧
  fs st1 !! audio_file_path index = Some audio.
Proof.
  intros Hv Hd Hout Hcap Hman Hdl Haudio Hans Hstatus Htext Hchat Hopen.
  rewrite (process_video_to_write _ _ _ _ _ _ _ _ _ _ _ _ _ Hv Hd Hout Hcap
             Hman Hdl Haudio Hans Hstatus Htext Hchat), Hopen.
  split_and!; [done| |].
  - by eapply output_absent_after_download.
  - by destruct (download_audio_some _ _ _ _ _ _ Hdl) as [<- _].
Qed.

Lemma process_video_write_failure_witness :
  let w := with_open_w_error (λ _, Some "[Errno 13] Permission denied")
             demo_world in
  ∃ st',
    process_video w "b" 2 fresh = (Ok tt, st') ∧
    List.last (trace st') (Stdout "") =
      write_failed_line 2 "[Errno 13] Permission denied" ∧
    fs st' !! file_path 2 = None ∧
    fs st' !! audio_file_path 2
      = Some "mp3 of https://www.youtube.com/watch?v=b".
Proof.
  intros w.
  set (st1 :=
         State ({[ audio_file_path 2 :=
                     "mp3 of https://www.youtube.com/watch?v=b" ]}
                : gmap string string)
           [ApiVideosList "b"; Stdout "Processing video: Title of b";
            ApiCaptionsList "b";
            YtDlpDownload "https://www.youtube.com/watch?v=b" "audio_files/2"]).
  assert (download_audio w "b" 2 (gates_passed "b" "Title of b" fresh)
          = (Ok (Some (audio_file_path 2)), st1)) as Hdl
    by (vm_compute; reflexivity).
  assert (fs st1 !! audio_file_path 2
          = Some "mp3 of https://www.youtube.com/watch?v=b") as Hfile
    by (vm_compute; reflexivity).
  destruct (process_video_write_failure w "b" 2 fresh
              (VideosResponse (Some [VideoItem "Title of b"]))
              (VideoItem "Title of b") (CaptionsResponse None)
              (audio_file_path 2) st1
              "mp3 of https://www.youtube.com/watch?v=b"
              (HttpResponse 200 "{}" (Some "hello") "") "hello" "# Topic"
              "[Errno 13] Permission denied"
              eq_refl eq_refl eq_refl eq_refl eq_refl Hdl Hfile
              eq_refl eq_refl eq_refl eq_refl eq_refl)
    as (Hrun & Hout & Haudio).
  eexists. split_and!; [exact Hrun|by vm_compute|exact Hout|exact Haudio].
Defined.

(** X11.  Processing a video a second time right after it went through
    (same hypotheses as for a successful run) only fetches its details
    and prints the title line and the "already exists" line: nothing is
    downloaded, posted, asked or written again. *)
Theorem process_video_twice (w : world) (video_id : string) (index : nat)
    (st : state) (response : videos_response) (details : video_item)
    (captions : captions_response) (path : string) (st1 : state)
    (audio : string) (answer : http_response) (t formatted : string) :
  videos_list w video_id = inr response →
  head (get_items (vr_items response)) = Some details →
  fs st !! file_path index = None →
  captions_list w video_id = inr captions →
  has_manual_track (get_items (cr_items captions)) = false →
  download_audio w video_id index
    (gates_passed video_id (snippet_title details) st) = (Ok (Some path), st1) →
  fs st1 !! path = Some audio →
  groq_transcriptions w audio = inr answer →
  status_code answer = 200 →
  json_text answer = Some t →
  groq_chat w (format_prompt t) = inr formatted →
  open_w_error w (file_path index) = None →
  ∃ st',
    process_video w video_id index st = (Ok tt, st') ∧
    (process_video w video_id index ;;; process_video w video_id index) st =
      (Ok tt,
       State (fs st')
         (trace st' ++
          [ApiVideosList video_id;
           Stdout ("Processing video: " +:+ snippet_title details);
           Stdout ("Transcription file " +:+ file_path index
                   +:+ " already exists. Skipping transcription and formatting.")])).
Proof.
  intros Hv Hd Hout Hcap Hman Hdl Haudio Hans Hstatus Htext Hchat Hopen.
  pose proof (process_video_to_write _ _ _ _ _ _ _ _ _ _ _ _ _ Hv Hd Hout Hcap
                Hman Hdl Haudio Hans Hstatus Htext Hchat) as Hrun.
  rewrite Hopen in Hrun.
  destruct (write_error w (file_path index) formatted) as [[e flushed]|];
    (eexists; split; [exact Hrun|]);
    unfold bind; rewrite Hrun;
    apply (process_video_output_exists _ _ _ _ _ _ Hv Hd);
    simpl; rewrite lookup_insert_eq; by eexists.
Qed.

Lemma process_video_twice_witness :
  ∃ st',
    process_video demo_world "b" 2 fresh = (Ok tt, st') ∧
    (process_video demo_world "b" 2 ;;; process_video demo_world "b" 2) fresh =
      (Ok tt,
       State (fs st')
         (trace st' ++
          [ApiVideosList "b"; Stdout "Processing video: Title of b";
           Stdout ("Transcription file " +:+ file_path 2
                   +:+ " already exists. Skipping transcription and formatting.")])).
Proof.
  refine (process_video_twice demo_world "b" 2 fresh
            (VideosResponse (Some [VideoItem "Title of b"]))
            (VideoItem "Title of b") (CaptionsResponse None)
            (audio_file_path 2)
            (State (<[audio_file_path 2 :=
                        "mp3 of https://www.youtube.com/watch?v=b"]> ∅)
               [ApiVideosList "b"; Stdout "Processing video: Title of b";
                ApiCaptionsList "b";
                YtDlpDownload "https://www.youtube.com/watch?v=b"
                  "audio_files/2"])
            "mp3 of https://www.youtube.com/watch?v=b"
            (HttpResponse 200 "{}" (Some "hello") "") "hello" "# Topic"
            eq_refl eq_refl eq_refl eq_refl eq_refl _ _
            eq_refl eq_refl eq_refl eq_refl eq_refl);
    vm_compute; reflexivity.
Defined.

(** ** Files are only added *)

Lemma after_gates_no_audio (w : world) video_id index st st1 :
  download_audio w video_id index st = (Ok None, st1) →
  after_gates w video_id index st =
    (Ok tt,
     State (fs st1)
       (trace st1 ++
        [Stdout ("Failed to download audio for video ID: " +:+ video_id)])).
Proof.
  intros Hdl. unfold after_gates. unfold bind at 1. by rewrite Hdl.
Qed.

Lemma after_gates_grows (w : world) video_id index st :
  fs st !! file_path index = None →
  fs st ⊆ fs (after_gates w video_id index st).2.
Proof.
  intros Hout.
  assert (∀ (files : gmap string string) content,
            fs st ⊆ files → files !! file_path index = None →
            fs st ⊆ <[file_path index := content]> files) as Hwrite.
  { intros files content Hsub Hnone. etrans; [exact Hsub|].
    by apply insert_subseteq. }
  destruct (fs st !! audio_file_path index) as [cached|] eqn:Hfile.
  { assert (is_Some (fs st !! audio_file_path index)) as Hsome
      by (by rewrite Hfile).
    rewrite (after_gates_with_audio _ _ _ _ _ _ cached
               (download_audio_hit w video_id index st Hsome)) by done.
    destruct (transcription_of w cached) as [e|t]; [done|].
    destruct (groq_chat w (format_prompt t)) as [e|formatted]; [done|].
    destruct (open_w_error w (file_path index)); [done|].
    destruct (write_error w (file_path index) formatted) as [[? ?]|];
      by apply Hwrite. }
  destruct (yt_dlp w (watch_url video_id) (audio_file_basename index))
    as [e|audio] eqn:Hdl.
  { by rewrite (after_gates_no_audio _ _ _ _ _
                  (download_audio_miss_error _ _ _ _ _ Hfile Hdl)). }
  assert (fs st ⊆ <[audio_file_path index := audio]> (fs st)) as Hsub
    by (by apply insert_subseteq).
  rewrite (after_gates_with_audio _ _ _ _ _ _ audio
             (download_audio_miss_ok _ _ _ _ _ Hfile Hdl))
    by apply lookup_insert_eq.
  destruct (transcription_of w audio) as [e|t]; [done|].
  destruct (groq_chat w (format_prompt t)) as [e|formatted]; [done|].
  destruct (open_w_error w (file_path index)); [done|].
  destruct (write_error w (file_path index) formatted) as [[? ?]|];
    (apply Hwrite; [done|]); simpl;
    (rewrite lookup_insert_ne; [done|apply audio_file_path_ne_file_path]).
Qed.

Lemma process_video_grows (w : world) video_id index st :
  fs st ⊆ fs (process_video w video_id index st).2.
Proof.
  destruct (videos_list w video_id) as [e|response] eqn:Hv.
  { by rewrite (process_video_details_error _ _ _ _ _ Hv). }
  destruct (head (get_items (vr_items response))) as [details|] eqn:Hd.
  2:{ by rewrite (process_video_not_found _ _ _ _ _ Hv Hd). }
  destruct (fs st !! file_path index) as [old|] eqn:Hout.
  { by rewrite (process_video_output_exists _ _ _ _ _ _ Hv Hd)
      by (by rewrite Hout). }
  destruct (captions_list w video_id) as [e|captions] eqn:Hcap.
  { by rewrite (process_video_captions_error _ _ _ _ _ _ Hv Hd Hout _ Hcap). }
  destruct (has_manual_track (get_items (cr_items captions))) eqn:Hmanual.
  { by rewrite (process_video_manual_caption _ _ _ _ _ _ Hv Hd Hout _ Hcap
                  Hmanual). }
  rewrite (process_video_after_gates _ _ _ _ _ _ Hv Hd Hout _ Hcap Hmanual).
  by apply (after_gates_grows w video_id index
              (gates_passed video_id (snippet_title details) st)).
Qed.

Lemma process_video_frame (w : world) video_id index st p :
  p ∉ paths_of index →
  fs (process_video w video_id index st).2 !! p = fs st !! p.
Proof.
  intros Hp.
  destruct (local_process_video w video_id index st st)
    as (r & evs & g1 & g2 & E1 & _ & _ & Hframe); [done|].
  rewrite E1. simpl. by apply Hframe.
Qed.

(** X12.  [process_video] never changes or removes a file that exists:
    the files before are all there afterwards with the same contents.
    What it adds is the audio file or the transcription of its own index;
    every other path is left as it was. *)
Theorem process_video_only_adds (w : world) (video_id : string) (index : nat)
    (st : state) :
  let st' := (process_video w video_id index st).2 in
  fs st ⊆ fs st' ∧
  (∀ p content, fs st !! p = Some content → fs st' !! p = Some content) ∧
  (∀ p, p ≠ audio_file_path index → p ≠ file_path index →
        fs st' !! p = fs st !! p).
Proof.
  simpl. pose proof (process_video_grows w video_id index st) as Hsub.
  split_and!; [done| |].
  - intros p content Hp. by eapply lookup_weaken.
  - intros p Haudio Hout. apply process_video_frame.
    unfold paths_of. rewrite elem_of_union, !elem_of_singleton. tauto.
Qed.

Lemma process_video_only_adds_witness :
  let st := State {[ "notes.txt" := "keep"; audio_file_path 2 := "old mp3" ]} [] in
  let st' := (process_video demo_world "b" 2 st).2 in
  fs st' !! "notes.txt" = Some "keep" ∧
  fs st' !! audio_file_path 2 = Some "old mp3" ∧
  fs st' !! file_path 2 = Some "# Topic".
Proof.
  intros st st'.
  destruct (process_video_only_adds demo_world "b" 2 st) as (_ & Hkeep & _).
  split_and!; [apply Hkeep|apply Hkeep|]; by vm_compute.
Defined.

Lemma for_each_video_grows (w : world) indexed st :
  fs st ⊆ fs (for_each_video w indexed st).2.
Proof.
  revert st. induction indexed as [|[index video_id] rest IH]; intros st;
    [done|].
  rewrite for_each_video_cons.
  pose proof (process_video_grows w video_id index st) as Hsub.
  destruct (process_video w video_id index st) as [[[]|e|c] st'];
    simpl in *; [|done..].
  etrans; [exact Hsub|apply IH].
Qed.

Lemma for_each_video_new_files (w : world) indexed st p :
  fs (for_each_video w indexed st).2 !! p ≠ fs st !! p →
  ∃ index, index ∈ indexed.*1 ∧ p ∈ paths_of index.
Proof.
  revert st. induction indexed as [|[index video_id] rest IH]; intros st;
    [done|].
  rewrite for_each_video_cons. intros Hne.
  destruct (decide (p ∈ paths_of index)) as [Hp|Hp].
  { exists index. split; [by left|done]. }
  pose proof (process_video_frame w video_id index st p Hp) as Hframe.
  destruct (process_video w video_id index st) as [[[]|e|c] st'];
    simpl in *; [|congruence..].
  rewrite <- Hframe in Hne. destruct (IH _ Hne) as (i & Hi & Hpi).
  exists i. split; [by right|done].
Qed.

Lemma get_video_ids_next_keeps_files channel_id first pages video_ids st :
  fs (get_video_ids_next channel_id first pages video_ids st).2 = fs st.
Proof.
  revert first video_ids st.
  induction pages as [|[e|page] pages IH]; intros first video_ids st; simpl;
    [done|done|].
  unfold bind at 1. unfold call, emit, bind, ret. simpl. by rewrite IH.
Qed.

Lemma get_video_ids_keeps_files (w : world) channel_id st :
  fs (get_video_ids w channel_id st).2 = fs st.
Proof.
  unfold get_video_ids. unfold bind at 1. unfold call, emit, bind, ret, raise.
  simpl. destruct (search_first w channel_id) as [e|page]; simpl; [done|].
  by rewrite get_video_ids_next_keeps_files.
Qed.

(** The last step of [main]: what is left once the catalog is listed. *)
Lemma main_cases (w : world) channel_id st :
  (∃ e, (get_video_ids w channel_id st).1 = Raise e ∧
        fs (main w channel_id st).2 = fs st ∧
        (main w channel_id st).1 ≠ Ok tt) ∨
  (∃ video_ids st1,
     get_video_ids w channel_id st = (Ok video_ids, st1) ∧
     main w channel_id st =
       for_each_video w (enumerate video_ids 1)
         (State (fs st1)
            (trace st1 ++
             [Stdout ("Found " +:+ fmt_int (length video_ids) +:+ " videos.")]))).
Proof.
  pose proof (get_video_ids_keeps_files w channel_id st) as Hfs.
  unfold main. run.
  destruct (get_video_ids w channel_id st) as [[video_ids|e|c] st1] eqn:Hids;
    simpl in Hfs.
  - right. by exists video_ids, st1.
  - left. exists e. split; [done|].
    destruct (decide (exn_class_of e = HttpError)); simpl; by rewrite Hfs.
  - exfalso. revert Hids. unfold get_video_ids. unfold bind at 1.
    unfold call, emit, bind, ret, raise. simpl.
    destruct (search_first w channel_id) as [e|page]; simpl; [done|].
    generalize (get_items (sp_items page)) as acc.
    generalize 1 as first.
    generalize (State (fs st) (trace st ++ [ApiSearchList channel_id 0])).
    induction (search_next w channel_id) as [|[e|p] pages IH];
      intros s first acc; simpl; [done|by run|].
    unfold bind at 1. unfold call, emit, bind, ret. simpl. apply IH.
Qed.

(** X13.  A whole run never changes or removes a file that exists, and
    every file it adds is [audio_files/<i>.mp3] or [transcriptions/<i>.md]
    for an index i it gave to a video. *)
Theorem main_only_adds (w : world) (channel_id : option string) (st : state) :
  let st' := (main w channel_id st).2 in
  fs st ⊆ fs st' ∧
  (∀ p, fs st' !! p ≠ fs st !! p →
        fs st !! p = None ∧
        ∃ index, 1 ≤ index ∧
                 (p = "audio_files/" +:+ fmt_int index +:+ ".mp3" ∨
                  p = "transcriptions/" +:+ fmt_int index +:+ ".md")).
Proof.
  simpl.
  assert (fs st ⊆ fs (main w channel_id st).2 ∧
          ∀ p, fs (main w channel_id st).2 !! p ≠ fs st !! p →
               ∃ index, 1 ≤ index ∧ p ∈ paths_of index) as [Hsub Hnew].
  { destruct (main_cases w channel_id st)
      as [(e & _ & Hfs & _)|(video_ids & st1 & Hids & ->)].
    { rewrite Hfs. split; [done|]. by intros p []. }
    pose proof (get_video_ids_keeps_files w channel_id st) as Hfs.
    rewrite Hids in Hfs. simpl in Hfs. split.
    - etrans; [|apply for_each_video_grows]. simpl. by rewrite Hfs.
    - intros p Hne. rewrite <- Hfs in Hne.
      destruct (for_each_video_new_files _ _ _ _ Hne) as (i & Hi & Hp).
      exists i. split; [|done].
      rewrite enumerate_fst in Hi. apply elem_of_seq in Hi. lia. }
  split; [done|]. intros p Hne.
  split.
  - destruct (fs st !! p) as [content|] eqn:Hp; [|done].
    exfalso. apply Hne. by eapply lookup_weaken.
  - destruct (Hnew p Hne) as (i & Hi & Hp). exists i. split; [done|].
    revert Hp. unfold paths_of.
    rewrite elem_of_union, !elem_of_singleton.
    by rewrite audio_file_path_eq, file_path_eq.
Qed.

Lemma main_only_adds_witness :
  let st := State {[ "notes.txt" := "keep" ]} [] in
  fs (main demo_world (Some "UC1") st).2 !! "notes.txt" = Some "keep" ∧
  fs (main demo_world (Some "UC1") st).2 !! "transcriptions/2.md"
    = Some "# Topic".
Proof.
  intros st. split; [|by vm_compute].
  eapply lookup_weaken;
    [|apply (proj1 (main_only_adds demo_world (Some "UC1") st))].
  by vm_compute.
Defined.

(** ** What the costly calls can be *)

Ltac elems H :=
  repeat (apply elem_of_cons in H as [H|H]; [try discriminate H|]);
  try (by apply elem_of_nil in H).

Ltac is_elem :=
  repeat (apply elem_of_cons; first [by left | right]).

Ltac new_events :=
  simpl; unfold gates_passed, transcription_failed_line, write_failed_line,
    saved_line; simpl;
  rewrite <- ?app_assoc; simpl; rewrite drop_app_length.

Ltac ordered n :=
  match goal with
  | |- ∃ pre post, ?evs = _ ∧ _ =>
      exists (take n evs), (drop (S (S n)) evs);
      split_and!; [reflexivity|done..]
  end.

Lemma process_video_calls (w : world) video_id index st :
  let st' := (process_video w video_id index st).2 in
  let evs := drop (length (trace st)) (trace st') in
  (∀ url outtmpl,
     YtDlpDownload url outtmpl ∈ evs →
     fs st !! audio_file_path index = None ∧
     url = watch_url video_id ∧ outtmpl = audio_file_basename index) ∧
  (∀ audio,
     PostTranscription audio ∈ evs →
     fs st' !! audio_file_path index = Some audio) ∧
  (∀ prompt,
     ChatCompletion prompt ∈ evs →
     ∃ audio t pre post,
       evs = pre ++ PostTranscription audio :: ChatCompletion prompt :: post ∧
       transcription_of w audio = inr t ∧ prompt = format_prompt t).
Proof.
  simpl.
  destruct (videos_list w video_id) as [e|response] eqn:Hv.
  { rewrite (process_video_details_error _ _ _ _ _ Hv). new_events.
    split_and!; intros; elems H. }
  destruct (head (get_items (vr_items response))) as [details|] eqn:Hd.
  2:{ rewrite (process_video_not_found _ _ _ _ _ Hv Hd). new_events.
      split_and!; intros; elems H. }
  destruct (fs st !! file_path index) as [old|] eqn:Hout.
  { rewrite (process_video_output_exists _ _ _ _ _ _ Hv Hd)
      by (by rewrite Hout).
    new_events. split_and!; intros; elems H. }
  destruct (captions_list w video_id) as [e|captions] eqn:Hcap.
  { rewrite (process_video_captions_error _ _ _ _ _ _ Hv Hd Hout _ Hcap).
    new_events. split_and!; intros; elems H. }
  destruct (has_manual_track (get_items (cr_items captions))) eqn:Hmanual.
  { rewrite (process_video_manual_caption _ _ _ _ _ _ Hv Hd Hout _ Hcap
               Hmanual).
    new_events. split_and!; intros; elems H. }
  rewrite (process_video_after_gates _ _ _ _ _ _ Hv Hd Hout _ Hcap Hmanual).
  set (gs := gates_passed video_id (snippet_title details) st).
  assert (fs gs = fs st) as Hgs by done.
  assert (∀ content (files : gmap string string),
            <[file_path index := content]> files !! audio_file_path index
            = files !! audio_file_path index) as Hkeep.
  { intros content files. rewrite lookup_insert_ne; [done|].
    intros E. symmetry in E. by apply audio_file_path_ne_file_path in E. }
  destruct (fs st !! audio_file_path index) as [cached|] eqn:Hfile.
  { assert (is_Some (fs gs !! audio_file_path index)) as Hsome
      by (rewrite Hgs, Hfile; by eexists).
    rewrite (after_gates_with_audio _ _ _ _ _ _ cached
               (download_audio_hit w video_id index gs Hsome))
      by (simpl; by rewrite Hfile).
    destruct (transcription_of w cached) as [e|t] eqn:Ht.
    { new_events. split_and!; intros; elems H. by simplify_eq. }
    destruct (groq_chat w (format_prompt t)) as [e|formatted].
    { new_events. split_and!; intros; elems H; simplify_eq; [done|].
      exists cached, t. ordered 4. }
    destruct (open_w_error w (file_path index)).
    { new_events. split_and!; intros; elems H; simplify_eq; [done|].
      exists cached, t. ordered 4. }
    destruct (write_error w (file_path index) formatted) as [[e flushed]|].
    { new_events. split_and!; intros; elems H; simplify_eq.
      - by rewrite Hkeep.
      - exists cached, t. ordered 4. }
    new_events. split_and!; intros; elems H; simplify_eq.
    - by rewrite Hkeep.
    - exists cached, t. ordered 4. }
  destruct (yt_dlp w (watch_url video_id) (audio_file_basename index))
    as [e|audio] eqn:Hdl.
  { rewrite (after_gates_no_audio _ _ _ _ _
               (download_audio_miss_error _ _ _ gs _ Hfile Hdl)).
    new_events. split_and!; intros; elems H. by simplify_eq. }
  rewrite (after_gates_with_audio _ _ _ _ _ _ audio
             (download_audio_miss_ok _ _ _ gs _ Hfile Hdl))
    by apply lookup_insert_eq.
  destruct (transcription_of w audio) as [e|t] eqn:Ht.
  { new_events. split_and!; intros; elems H; simplify_eq; [done|].
    apply lookup_insert_eq. }
  destruct (groq_chat w (format_prompt t)) as [e|formatted].
  { new_events. split_and!; intros; elems H; simplify_eq;
      [done|apply lookup_insert_eq|].
    exists audio, t. ordered 4. }
  destruct (open_w_error w (file_path index)).
  { new_events. split_and!; intros; elems H; simplify_eq;
      [done|apply lookup_insert_eq|].
    exists audio, t. ordered 4. }
  destruct (write_error w (file_path index) formatted) as [[e flushed]|].
  { new_events. split_and!; intros; elems H; simplify_eq; [done| |].
    - rewrite Hkeep. apply lookup_insert_eq.
    - exists audio, t. ordered 4. }
  new_events. split_and!; intros; elems H; simplify_eq; [done| |].
  - rewrite Hkeep. apply lookup_insert_eq.
  - exists audio, t. ordered 4.
Qed.

(** X14.  While a video is processed, yt-dlp is invoked only when the
    audio file of the index is missing, and then for the watch url of
    that video and the output template [audio_files/<index>]. *)
Theorem yt_dlp_only_when_missing (w : world) (video_id : string)
    (index : nat) (st : state) (url outtmpl : string) :
  YtDlpDownload url outtmpl
    ∈ drop (length (trace st)) (trace (process_video w video_id index st).2) →
  fs st !! audio_file_path index = None ∧
  url = "https://www.youtube.com/watch?v=" +:+ video_id ∧
  outtmpl = "audio_files/" +:+ fmt_int index.
Proof.
  intros Hin.
  destruct (process_video_calls w video_id index st) as (Hdl & _ & _).
  destruct (Hdl _ _ Hin) as (Hmiss & -> & ->).
  split_and!; [done|done|apply audio_file_basename_eq].
Qed.

Lemma yt_dlp_only_when_missing_witness :
  (fresh : state).(fs) !! audio_file_path 2 = None ∧
  "https://www.youtube.com/watch?v=b" = "https://www.youtube.com/watch?v=" +:+ "b" ∧
  "audio_files/2" = "audio_files/" +:+ fmt_int 2.
Proof.
  apply (yt_dlp_only_when_missing demo_world "b" 2 fresh).
  vm_compute. is_elem.
Defined.

(** X15.  While a video is processed, a chat completion is asked only
    right after the audio file of the index has been posted: in the
    events of the run the upload comes immediately before the chat
    completion.  The speech-to-text service has answered that upload with
    a 200 and a text, the prompt is the formatting prompt built from that
    text, and what was posted is the content of the audio file of the
    index. *)
Theorem chat_only_after_transcription (w : world) (video_id : string)
    (index : nat) (st : state) (prompt : string) :
  let st' := (process_video w video_id index st).2 in
  let evs := drop (length (trace st)) (trace st') in
  ChatCompletion prompt ∈ evs →
  ∃ audio answer t pre post,
    evs = pre ++ PostTranscription audio :: ChatCompletion prompt :: post ∧
    PostTranscription audio ∈ evs ∧
    fs st' !! audio_file_path index = Some audio ∧
    groq_transcriptions w audio = inr answer ∧
    status_code answer = 200 ∧
    json_text answer = Some t ∧
    prompt = format_prompt t.
Proof.
  intros st' evs Hin.
  destruct (process_video_calls w video_id index st) as (_ & Hpost & Hchat).
  destruct (Hchat _ Hin) as (audio & t & pre & post & Hevs & Ht & ->).
  apply transcription_of_inr in Ht as (answer & Hanswer & Hstatus & Htext).
  assert (PostTranscription audio ∈ evs) as Hposted.
  { unfold evs, st'. rewrite Hevs. apply elem_of_app. right. by left. }
  exists audio, answer, t, pre, post.
  split_and!; [done|done|by apply Hpost|done..].
Qed.

Lemma chat_only_after_transcription_witness :
  let st' := (process_video demo_world "b" 2 fresh).2 in
  ∃ audio answer t pre post,
    drop 0 (trace st') =
      pre ++ PostTranscription audio ::
             ChatCompletion (format_prompt "hello") :: post ∧
    PostTranscription audio ∈ drop 0 (trace st') ∧
    fs st' !! audio_file_path 2 = Some audio ∧
    groq_transcriptions demo_world audio = inr answer ∧
    status_code answer = 200 ∧
    json_text answer = Some t ∧
    format_prompt "hello" = format_prompt t.
Proof.
  apply (chat_only_after_transcription demo_world "b" 2 fresh
           (format_prompt "hello")).
  vm_compute. is_elem.
Defined.

(** ** Start-up and the order of a run *)

Lemma get_video_ids_next_trace channel_id first pages video_ids st :
  ∃ evs,
    trace (get_video_ids_next channel_id first pages video_ids st).2
      = trace st ++ evs.
Proof.
  revert first video_ids st.
  induction pages as [|[e|page] pages IH]; intros first video_ids st; simpl.
  - exists []. by rewrite app_nil_r.
  - by eexists.
  - unfold bind at 1. unfold call, emit, bind, ret. simpl.
    destruct (IH (S first) (video_ids ++ get_items (sp_items page))
                (State (fs st) (trace st ++ [ApiSearchList channel_id first])))
      as [evs ->].
    simpl. rewrite <- app_assoc. by eexists.
Qed.

Lemma get_video_ids_trace (w : world) channel_id st :
  ∃ evs,
    trace (get_video_ids w channel_id st).2
      = trace st ++ ApiSearchList channel_id 0 :: evs.
Proof.
  unfold get_video_ids. unfold bind at 1. unfold call, emit, bind, ret, raise.
  simpl. destruct (search_first w channel_id) as [e|page]; simpl.
  { by exists []. }
  destruct (get_video_ids_next_trace channel_id 1 (search_next w channel_id)
              (get_items (sp_items page))
              (State (fs st) (trace st ++ [ApiSearchList channel_id 0])))
    as [evs ->].
  simpl. rewrite <- app_assoc. by eexists.
Qed.

Lemma main_trace (w : world) channel_id st :
  ∃ evs,
    trace (main w channel_id st).2
      = trace st ++ ApiSearchList channel_id 0 :: evs.
Proof.
  destruct (get_video_ids_trace w channel_id st) as [evs Hids].
  unfold main. run.
  destruct (get_video_ids w channel_id st) as [[video_ids|e|c] st1];
    simpl in *.
  - rewrite for_each_video_trace. simpl. rewrite Hids.
    rewrite <- !app_assoc. simpl. by eexists.
  - destruct (decide (exn_class_of e = HttpError)); simpl; rewrite Hids.
    + rewrite <- app_assoc. simpl. by eexists.
    + by eexists.
  - by eexists.
Qed.

(** X16.  At start-up a key that is unset or set to the empty string is
    missing.  With [GROQ_API_KEY] missing the program prints its error
    line and exits with status 1, and the same happens with [YT_API_KEY]
    missing (the line then names YOUTUBE_API_KEY); nothing else has been
    done.  With both keys there, the two directories are created first,
    and the next thing is the first search call, for the channel id as
    read from [CHANNEL_ID]. *)
Theorem program_start_up (w : world) (environ : gmap string string)
    (st : state) :
  let missing key := environ !! key = None ∨ environ !! key = Some "" in
  (missing "GROQ_API_KEY" →
   program w environ st =
     (Exit 1,
      State (fs st) (trace st ++ [Stdout "Error: GROQ_API_KEY is not set."]))) ∧
  (¬ missing "GROQ_API_KEY" → missing "YT_API_KEY" →
   program w environ st =
     (Exit 1,
      State (fs st)
        (trace st ++ [Stdout "Error: YOUTUBE_API_KEY is not set."]))) ∧
  (¬ missing "GROQ_API_KEY" → ¬ missing "YT_API_KEY" →
   ∃ evs,
     trace (program w environ st).2 =
       trace st ++
       Makedirs "audio_files" :: Makedirs "transcriptions" ::
       ApiSearchList (environ !! "CHANNEL_ID") 0 :: evs).
Proof.
  intros missing.
  assert (∀ key, not_set (environ !! key) = true ↔ missing key) as Hnot.
  { intros key. unfold missing, not_set.
    destruct (environ !! key) as [value|]; [|by split; [left|]].
    rewrite bool_decide_eq_true. split; [intros ->; by right|].
    by intros [?|[= ->]]. }
  split_and!.
  - intros H%Hnot. by apply program_missing_groq_key.
  - intros H1 H2%Hnot. apply program_missing_youtube_key; [|done].
    apply not_true_is_false. by rewrite Hnot.
  - intros H1 H2.
    rewrite program_keys_set by (apply not_true_is_false; by rewrite Hnot).
    destruct (main_trace w (environ !! "CHANNEL_ID")
                (State (fs st)
                   (trace st ++
                    [Makedirs "audio_files"; Makedirs "transcriptions"])))
      as [evs ->].
    simpl. rewrite <- app_assoc. by eexists.
Qed.

Lemma program_start_up_witness :
  program demo_world {[ "GROQ_API_KEY" := ""; "YT_API_KEY" := "AIza" ]} fresh =
    (Exit 1, State ∅ ([] ++ [Stdout "Error: GROQ_API_KEY is not set."])) ∧
  program demo_world {[ "GROQ_API_KEY" := "gsk" ]} fresh =
    (Exit 1, State ∅ ([] ++ [Stdout "Error: YOUTUBE_API_KEY is not set."])).
Proof.
  split.
  - apply (proj1 (program_start_up demo_world
                    {[ "GROQ_API_KEY" := ""; "YT_API_KEY" := "AIza" ]} fresh)).
    right. reflexivity.
  - apply (proj1 (proj2 (program_start_up demo_world
                           {[ "GROQ_API_KEY" := "gsk" ]} fresh))).
    + intros [H|H]; vm_compute in H; discriminate H.
    + left. reflexivity.
Defined.

(** ** Running a video again *)

Lemma after_gates_files (w : world) video_id index st path st1 audio :
  download_audio w video_id index st = (Ok (Some path), st1) →
  fs st1 !! audio_file_path index = Some audio →
  fs (after_gates w video_id index st).2 = files_after w index audio (fs st1).
Proof.
  intros Hdl Haudio.
  rewrite (after_gates_with_audio _ _ _ _ _ _ _ Hdl Haudio).
  unfold files_after.
  destruct (transcription_of w audio) as [e|t]; [done|].
  destruct (groq_chat w (format_prompt t)) as [e|formatted]; [done|].
  destruct (open_w_error w (file_path index)); [done|].
  by destruct (write_error w (file_path index) formatted) as [[? ?]|].
Qed.

Lemma files_after_cases (w : world) index audio files :
  files_after w index audio files = files ∨
  ∃ formatted,
    files_after w index audio files = <[file_path index := formatted]> files.
Proof.
  unfold files_after.
  destruct (transcription_of w audio) as [e|t]; [by left|].
  destruct (groq_chat w (format_prompt t)) as [e|formatted]; [by left|].
  destruct (open_w_error w (file_path index)); [by left|].
  destruct (write_error w (file_path index) formatted) as [[e flushed]|];
    right; by eexists.
Qed.

(** A run that changed no file is followed by a run that changes none. *)
Lemma process_video_again_unchanged (w : world) video_id index st :
  fs (process_video w video_id index st).2 = fs st →
  fs (process_video w video_id index (process_video w video_id index st).2).2
    = fs (process_video w video_id index st).2.
Proof.
  intros Hsame.
  destruct (local_process_video w video_id index
              (process_video w video_id index st).2 st)
    as (r & evs & g1 & g2 & E1 & E2 & Hin & Hframe).
  { intros p _. by rewrite Hsame. }
  assert (fs (process_video w video_id index st).2 = g2) as Hg2
    by (by rewrite E2).
  rewrite E1. simpl. apply map_eq. intros p.
  destruct (decide (p ∈ paths_of index)) as [Hp|Hp].
  - rewrite Hg2. by apply Hin.
  - by apply Hframe.
Qed.

(** X17.  Processing a video a second time, with the services answering
    as they did, leaves the files as the first run left them: whatever the
    first run did or failed to do, the second run writes nothing new. *)
Theorem process_video_rerun_files (w : world) (video_id : string)
    (index : nat) (st : state) :
  let st' := (process_video w video_id index st).2 in
  fs (process_video w video_id index st').2 = fs st'.
Proof.
  simpl.
  destruct (videos_list w video_id) as [e|response] eqn:Hv.
  { apply process_video_again_unchanged.
    by rewrite (process_video_details_error _ _ _ _ _ Hv). }
  destruct (head (get_items (vr_items response))) as [details|] eqn:Hd.
  2:{ apply process_video_again_unchanged.
      by rewrite (process_video_not_found _ _ _ _ _ Hv Hd). }
  assert (∀ s, is_Some (fs s !! file_path index) →
               fs (process_video w video_id index s).2 = fs s) as Hexists.
  { intros s Hs. by rewrite (process_video_output_exists _ _ _ _ _ _ Hv Hd Hs). }
  destruct (fs st !! file_path index) as [old|] eqn:Hout.
  { apply process_video_again_unchanged, Hexists. by rewrite Hout. }
  destruct (captions_list w video_id) as [e|captions] eqn:Hcap.
  { apply process_video_again_unchanged.
    by rewrite (process_video_captions_error _ _ _ _ _ _ Hv Hd Hout _ Hcap). }
  destruct (has_manual_track (get_items (cr_items captions))) eqn:Hmanual.
  { apply process_video_again_unchanged.
    by rewrite (process_video_manual_caption _ _ _ _ _ _ Hv Hd Hout _ Hcap
                  Hmanual). }
  assert (∀ s audio,
            fs s !! file_path index = None →
            fs s !! audio_file_path index = Some audio →
            fs (process_video w video_id index s).2
              = files_after w index audio (fs s)) as Hcached.
  { intros s audio Hs Ha.
    rewrite (process_video_after_gates _ _ _ _ _ _ Hv Hd Hs _ Hcap Hmanual).
    set (gs := gates_passed video_id (snippet_title details) s).
    assert (is_Some (fs gs !! audio_file_path index)) as Hsome
      by (simpl; rewrite Ha; by eexists).
    by rewrite (after_gates_files _ _ _ _ _ _ audio
                  (download_audio_hit w video_id index gs Hsome)). }
  assert (∀ s audio,
            fs s !! file_path index = None →
            fs s !! audio_file_path index = Some audio →
            fs (process_video w video_id index s).2 = files_after w index audio (fs s) →
            fs (process_video w video_id index
                  (process_video w video_id index s).2).2
              = fs (process_video w video_id index s).2) as Hstep.
  { intros s audio Hs Ha Hrun.
    destruct (files_after_cases w index audio (fs s)) as [Hsame|[formatted Hw]].
    - apply process_video_again_unchanged. by rewrite Hrun.
    - apply Hexists. rewrite Hrun, Hw, lookup_insert_eq. by eexists. }
  destruct (fs st !! audio_file_path index) as [cached|] eqn:Hfile.
  { by apply (Hstep st cached), Hcached. }
  set (gs := gates_passed video_id (snippet_title details) st).
  destruct (yt_dlp w (watch_url video_id) (audio_file_basename index))
    as [e|audio] eqn:Hdl.
  { apply process_video_again_unchanged.
    rewrite (process_video_after_gates _ _ _ _ _ _ Hv Hd Hout _ Hcap Hmanual).
    fold gs.
    by rewrite (after_gates_no_audio _ _ _ _ _
                  (download_audio_miss_error _ _ _ gs _ Hfile Hdl)). }
  assert (fs (process_video w video_id index st).2
          = files_after w index audio
              (<[audio_file_path index := audio]> (fs st))) as Hrun.
  { rewrite (process_video_after_gates _ _ _ _ _ _ Hv Hd Hout _ Hcap Hmanual).
    fold gs.
    by rewrite (after_gates_files _ _ _ _ _ _ audio
                  (download_audio_miss_ok _ _ _ gs _ Hfile Hdl))
      by apply lookup_insert_eq. }
  destruct (files_after_cases w index audio
              (<[audio_file_path index := audio]> (fs st)))
    as [Hsame|[formatted Hw]].
  - rewrite Hsame in Hrun.
    assert (fs (process_video w video_id index st).2 !! file_path index = None)
      as Hout'.
    { rewrite Hrun, lookup_insert_ne; [done|].
      apply audio_file_path_ne_file_path. }
    assert (fs (process_video w video_id index st).2 !! audio_file_path index
            = Some audio) as Ha'
      by (rewrite Hrun; apply lookup_insert_eq).
    rewrite (Hcached _ audio Hout' Ha'), Hrun.
    exact Hsame.
  - apply Hexists. rewrite Hrun, Hw, lookup_insert_eq. by eexists.
Qed.

(** ** A run from the listing on *)

(** X18.  When every page of the search answers, [main] prints the number
    of ids found and then processes exactly these ids, in page order,
    numbered from 1; with no id at all it prints "Found 0 videos." and
    returns having done nothing else. *)
Theorem main_lists_then_processes (w : world) (channel_id : option string)
    (st : state) (pages : list search_page) :
  search_pages w channel_id = inr <$> pages →
  let listed :=
    State (fs st)
      (trace st ++ search_calls channel_id 0 (length pages) ++
       [Stdout ("Found " +:+ fmt_int (length (page_ids pages)) +:+ " videos.")]) in
  main w channel_id st =
    for_each_video w (enumerate (page_ids pages) 1) listed ∧
  (page_ids pages = [] →
   main w channel_id st =
     (Ok tt,
      State (fs st)
        (trace st ++ search_calls channel_id 0 (length pages) ++
         [Stdout "Found 0 videos."]))).
Proof.
  intros Hpages listed.
  assert (main w channel_id st =
            for_each_video w (enumerate (page_ids pages) 1) listed) as Hmain.
  { pose proof (get_video_ids_all_pages_eq w channel_id st pages Hpages) as Hids.
    unfold main. run. rewrite Hids. simpl.
    unfold listed. by rewrite <- app_assoc. }
  split; [done|]. intros Hempty. rewrite Hmain. unfold listed.
  by rewrite Hempty.
Qed.

Lemma main_lists_then_processes_witness :
  let w := with_search (λ _, inr (SearchPage None))
             (λ _, [inr (SearchPage (Some []))]) demo_world in
  main w (Some "UC1") fresh =
    (Ok tt,
     State ∅
       ([] ++ search_calls (Some "UC1") 0 2 ++ [Stdout "Found 0 videos."])).
Proof.
  intros w.
  apply (proj2 (main_lists_then_processes w (Some "UC1") fresh
                  [SearchPage None; SearchPage (Some [])] eq_refl)).
  reflexivity.
Defined.

(** ** Videos that are skipped *)

(** X19.  A details response without an ["items"] key is treated like one
    with an empty list: the video is reported as not found and skipped
    after that single call, whatever files exist. *)
Theorem process_video_no_items (w : world) (video_id : string) (index : nat)
    (st : state) (response : videos_response) :
  videos_list w video_id = inr response →
  vr_items response = None ∨ vr_items response = Some [] →
  process_video w video_id index st =
    (Ok tt,
     State (fs st)
       (trace st ++
        [ApiVideosList video_id;
         Stdout ("Video details not found for ID: " +:+ video_id)])).
Proof.
  intros Hv Hitems. apply (process_video_not_found _ _ _ _ _ Hv).
  by destruct Hitems as [-> | ->].
Qed.

Lemma process_video_no_items_witness :
  let w := with_videos_list (λ _, inr (VideosResponse None)) demo_world in
  process_video w "b" 2 (State {[ file_path 2 := "# done" ]} []) =
    (Ok tt,
     State {[ file_path 2 := "# done" ]}
       ([] ++
        [ApiVideosList "b"; Stdout "Video details not found for ID: b"])).
Proof.
  intros w.
  exact (process_video_no_items w "b" 2
           (State {[ file_path 2 := "# done" ]} []) (VideosResponse None)
           eq_refl (or_introl eq_refl)).
Defined.

(** X20.  When the gates are passed, the audio file is missing and yt-dlp
    raises, [process_video] prints the error of yt-dlp and the "Failed to
    download" line and returns: nothing is posted or asked, and no file
    has changed. *)
Theorem process_video_download_failure (w : world) (video_id : string)
    (index : nat) (st : state) (response : videos_response)
    (details : video_item) (captions : captions_response) (e : exn) :
  videos_list w video_id = inr response →
  head (get_items (vr_items response)) = Some details →
  fs st !! file_path index = None →
  captions_list w video_id = inr captions →
  has_manual_track (get_items (cr_items captions)) = false →
  fs st !! audio_file_path index = None →
  yt_dlp w (watch_url video_id) (audio_file_basename index) = inl e →
  process_video w video_id index st =
    (Ok tt,
     State (fs st)
       (trace st ++
        [ApiVideosList video_id;
         Stdout ("Processing video: " +:+ snippet_title details);
         ApiCaptionsList video_id;
         YtDlpDownload (watch_url video_id) (audio_file_basename index);
         Stdout ("Error downloading audio for video ID " +:+ video_id
                 +:+ ": " +:+ exn_str e);
         Stdout ("Failed to download audio for video ID: " +:+ video_id)])).
Proof.
  intros Hv Hd Hout Hcap Hmanual Hfile Hdl.
  rewrite (process_video_after_gates _ _ _ _ _ _ Hv Hd Hout _ Hcap Hmanual).
  set (gs := gates_passed video_id (snippet_title details) st).
  rewrite (after_gates_no_audio _ _ _ _ _
             (download_audio_miss_error _ _ _ gs _ Hfile Hdl)).
  unfold gs, gates_passed. simpl. by rewrite <- !app_assoc.
Qed.

Lemma process_video_download_failure_witness :
  let e := Exn DownloadError "ERROR: [youtube] b: Video unavailable" in
  let w := with_yt_dlp (λ _ _, inl e) demo_world in
  (process_video w "b" 2 fresh).1 = Ok tt ∧
  fs (process_video w "b" 2 fresh).2 = ∅.
Proof.
  intros e w.
  rewrite (process_video_download_failure w "b" 2 fresh
             (VideosResponse (Some [VideoItem "Title of b"]))
             (VideoItem "Title of b") (CaptionsResponse None) e
             eq_refl eq_refl eq_refl eq_refl eq_refl eq_refl eq_refl).
  done.
Defined.

(** ** The indices of a run *)

Lemma enumerate_zip video_ids start :
  enumerate video_ids start = zip (seq start (length video_ids)) video_ids.
Proof.
  revert start. induction video_ids as [|v l IH]; intros start; simpl; [done|].
  by rewrite IH.
Qed.

(** C3.  Once the catalog is listed, [main] goes through the N ids it got
    in catalog order and processes the id at position k under the index
    k+1: the pairs it loops over are (1, first id), ..., (N, last id),
    the indices are exactly 1, ..., N without gap or repeat, and each
    turn of the loop is one call of [process_video] with the id and its
    index.  In a run where every video returns, what the run does after
    the listing is what video 1, video 2, ..., video N do, each once and
    in this order, and nothing else. *)
Theorem main_indices_contiguous (w : world) (channel_id : option string)
    (st : state) (video_ids : list string) (st1 : state) :
  get_video_ids w channel_id st = (Ok video_ids, st1) →
  let N := length video_ids in
  let indexed := enumerate video_ids 1 in
  let listed :=
    State (fs st1)
      (trace st1 ++ [Stdout ("Found " +:+ fmt_int N +:+ " videos.")]) in
  main w channel_id st = for_each_video w indexed listed ∧
  indexed = zip (seq 1 N) video_ids ∧
  indexed.*1 = seq 1 N ∧
  indexed.*2 = video_ids ∧
  NoDup indexed.*1 ∧
  (∀ i, i ∈ indexed.*1 ↔ 1 ≤ i ≤ N) ∧
  (∀ k video_id,
     video_ids !! k = Some video_id →
     indexed !! k = Some (S k, video_id) ∧
     ∀ s, for_each_video w (drop k indexed) s =
          (process_video w video_id (S k) ;;;
           for_each_video w (drop (S k) indexed)) s) ∧
  ((∀ k video_id, video_ids !! k = Some video_id →
                  (video_run w (S k, video_id) (fs st)).1 = Ok tt) →
   (main w channel_id st).1 = Ok tt ∧
   trace (main w channel_id st).2
     = trace listed ++ runs_trace w (fs st) indexed).
Proof.
  intros Hids N indexed listed.
  destruct (enumerate_from_1 video_ids) as (Hfst & Hsnd & Hnd & Hrange & Hlook).
  fold indexed in Hfst, Hsnd, Hnd, Hrange, Hlook. fold N in Hfst, Hrange.
  assert (main w channel_id st = for_each_video w indexed listed) as Hmain.
  { destruct (main_cases w channel_id st)
      as [(e & He & _)|(ids & s1 & Hids' & ->)].
    - by rewrite Hids in He.
    - rewrite Hids in Hids'. by injection Hids' as <- <-. }
  split_and!; [done|apply enumerate_zip|done|done|done|done| |].
  - intros k video_id Hk. pose proof (Hlook k video_id Hk) as Hk'.
    split; [done|]. intros s.
    by rewrite (drop_S _ _ _ Hk'), for_each_video_cons.
  - intros Hreturn.
    pose proof (get_video_ids_keeps_files w channel_id st) as Hfs.
    rewrite Hids in Hfs. simpl in Hfs.
    assert (length indexed = N) as Hlen.
    { unfold indexed, N. by rewrite <- (length_fmap snd), enumerate_snd. }
    destruct (loop_reaches w indexed (fs st) listed (length indexed) Hnd)
      as (st_k & Hloop & Htrace & _).
    + intros i v p _ _. simpl. by rewrite Hfs.
    + done.
    + intros j i v _ Hj.
      destruct (video_ids !! j) as [v'|] eqn:Hv.
      * rewrite (Hlook j v' Hv) in Hj. injection Hj as <- <-.
        by apply Hreturn.
      * apply lookup_ge_None in Hv. apply lookup_lt_Some in Hj.
        fold N in Hv. lia.
    + rewrite Hmain, Hloop, drop_all. simpl.
      split; [done|]. by rewrite Htrace, firstn_all.
Qed.

Lemma main_indices_contiguous_witness :
  let listed :=
    State ∅ [ApiSearchList (Some "UC1") 0; ApiSearchList (Some "UC1") 1;
             Stdout "Found 3 videos."] in
  main demo_world (Some "UC1") fresh =
    for_each_video demo_world [(1, "a"); (2, "b"); (3, "c")] listed ∧
  (main demo_world (Some "UC1") fresh).1 = Ok tt ∧
  trace (main demo_world (Some "UC1") fresh).2 =
    trace listed ++
    runs_trace demo_world ∅ [(1, "a"); (2, "b"); (3, "c")].
Proof.
  intros listed.
  assert (get_video_ids demo_world (Some "UC1") fresh =
            (Ok ["a"; "b"; "c"],
             State ∅ [ApiSearchList (Some "UC1") 0;
                      ApiSearchList (Some "UC1") 1])) as Hids
    by (vm_compute; reflexivity).
  destruct (main_indices_contiguous demo_world (Some "UC1") fresh _ _ Hids)
    as (Hmain & _ & _ & _ & _ & _ & _ & Hall).
  destruct Hall as [Hok Htrace].
  { intros [|[|[|k]]] v Hv; try discriminate Hv;
      injection Hv as <-; by vm_compute. }
  split_and!; [exact Hmain|exact Hok|exact Htrace].
Defined.

(** ** A write that fails after the file is open *)

(** X21.  When everything goes through up to the chat completion and the
    output file is opened but the write fails, [process_video] prints the
    "Failed to write" line and returns, and the output file is left
    behind with whatever had reached it, possibly nothing.  Processing
    the video again then finds that file and skips the video: the
    formatting is not asked again and the file is not repaired. *)
Theorem process_video_write_interrupted (w : world) (video_id : string)
    (index : nat) (st : state) (response : videos_response)
    (details : video_item) (captions : captions_response) (path : string)
    (st1 : state) (audio : string) (answer : http_response)
    (t formatted : string) (e : exn) (flushed : string) :
  videos_list w video_id = inr response →
  head (get_items (vr_items response)) = Some details →
  fs st !! file_path index = None →
  captions_list w video_id = inr captions →
  has_manual_track (get_items (cr_items captions)) = false →
  download_audio w video_id index
    (gates_passed video_id (snippet_title details) st) = (Ok (Some path), st1) →
  fs st1 !! path = Some audio →
  groq_transcriptions w audio = inr answer →
  status_code answer = 200 →
  json_text answer = Some t →
  groq_chat w (format_prompt t) = inr formatted →
  open_w_error w (file_path index) = None →
  write_error w (file_path index) formatted = Some (e, flushed) →
  let st' :=
    State (<[file_path index := flushed]> (fs st1))
      (trace st1 ++
       [PostTranscription audio; ChatCompletion (format_prompt t);
        write_failed_line index (exn_str e)]) in
  process_video w video_id index st = (Ok tt, st') ∧
  fs st' !! file_path index = Some flushed ∧
  process_video w video_id index st' =
    (Ok tt,
     State (fs st')
       (trace st' ++
        [ApiVideosList video_id;
         Stdout ("Processing video: " +:+ snippet_title details);
         Stdout ("Transcription file " +:+ file_path index
                 +:+ " already exists. Skipping transcription and formatting.")])).
Proof.
  intros Hv Hd Hout Hcap Hman Hdl Haudio Hans Hstatus Htext Hchat Hopen
    Hwrite st'.
  rewrite (process_video_to_write _ _ _ _ _ _ _ _ _ _ _ _ _ Hv Hd Hout Hcap
             Hman Hdl Haudio Hans Hstatus Htext Hchat), Hopen, Hwrite.
  assert (fs st' !! file_path index = Some flushed) as Hfile
    by apply lookup_insert_eq.
  split_and!; [done|done|].
  apply (process_video_output_exists _ _ _ _ _ _ Hv Hd).
  rewrite Hfile. by eexists.
Qed.

Lemma process_video_write_interrupted_witness :
  let e := Exn ValueError "'utf-8' codec can't encode character" in
  let w := with_write_error (λ _ _, Some (e, "")) demo_world in
  ∃ st',
    process_video w "b" 2 fresh = (Ok tt, st') ∧
    fs st' !! file_path 2 = Some "" ∧
    List.filter costly_call (trace (process_video w "b" 2 st').2)
      = List.filter costly_call (trace st').
Proof.
  intros e w.
  set (st1 :=
         State ({[ audio_file_path 2 :=
                     "mp3 of https://www.youtube.com/watch?v=b" ]}
                : gmap string string)
           [ApiVideosList "b"; Stdout "Processing video: Title of b";
            ApiCaptionsList "b";
            YtDlpDownload "https://www.youtube.com/watch?v=b" "audio_files/2"]).
  assert (download_audio w "b" 2 (gates_passed "b" "Title of b" fresh)
          = (Ok (Some (audio_file_path 2)), st1)) as Hdl
    by (vm_compute; reflexivity).
  assert (fs st1 !! audio_file_path 2
          = Some "mp3 of https://www.youtube.com/watch?v=b") as Hfile
    by (vm_compute; reflexivity).
  destruct (process_video_write_interrupted w "b" 2 fresh
              (VideosResponse (Some [VideoItem "Title of b"]))
              (VideoItem "Title of b") (CaptionsResponse None)
              (audio_file_path 2) st1
              "mp3 of https://www.youtube.com/watch?v=b"
              (HttpResponse 200 "{}" (Some "hello") "") "hello" "# Topic"
              e ""
              eq_refl eq_refl eq_refl eq_refl eq_refl Hdl Hfile
              eq_refl eq_refl eq_refl eq_refl eq_refl eq_refl)
    as (Hrun & Hout & Hagain).
  eexists. split_and!; [exact Hrun|exact Hout|].
  rewrite Hagain. by vm_compute.
Defined.
